(** * ipc_bench: round-trip latency of an L4 IPC call between two threads

    Shallow embedding of [server/src/ipc_bench.cc].  The program has three
    procedures: [thread1_fn] (the initiator, which times [BENCH_SIZE] calls),
    [thread2_fn] (the responder, which answers every request with a time
    stamp) and [main] (which creates the responder, asks the scheduler to
    move it to CPU 1 and runs the initiator).

    Everything the procedures obtain from outside (clock readings, time
    stamp counter readings, what an IPC operation returns) is an explicit
    input; everything they do to the outside (lines written, IPC and
    scheduler requests) is an explicit list of events. *)

From Stdlib Require Import ZArith String List Bool Lia Permutation.
Import ListNotations.
Local Open Scope Z_scope.

(** ** Machine integers

    The data model is LP64 (amd64): [unsigned] has 32 bits; [long],
    [unsigned long], [l4_umword_t], [time_t] and [unsigned long long] have
    64 bits.  Unsigned arithmetic wraps; a conversion to [long] keeps the
    value modulo [2^64]; signed overflow is undefined.  Integers are [Z];
    a wrap is written as a mask ([Z.land]) so that long runs evaluate
    quickly, and [to_ulong_mod] and its neighbours restate it with [mod]. *)

Module CInt.

Definition UINT_MAX : Z := Eval vm_compute in Z.ones 32.
Definition ULONG_MAX : Z := Eval vm_compute in Z.ones 64.
Definition LONG_MAX : Z := Eval vm_compute in Z.ones 63.
Definition LONG_MIN : Z := Eval vm_compute in - Z.ones 63 - 1.

(** Unsigned types keep the low bits of a result. *)
Definition to_unsigned (x : Z) : Z := Z.land x UINT_MAX.
Definition to_ulong (x : Z) : Z := Z.land x ULONG_MAX.
Definition to_ullong (x : Z) : Z := Z.land x ULONG_MAX.

(** Conversion to [long]: the same 64 bits read in two's complement. *)
Definition to_long (x : Z) : Z :=
  let r := Z.land x ULONG_MAX in
  if r <=? LONG_MAX then r else r - ULONG_MAX - 1.

Definition in_long (x : Z) : bool := (LONG_MIN <=? x) && (x <=? LONG_MAX).

End CInt.
Import CInt.

(** ** Events and outcomes *)

Inductive l4_timeout_t : Type :=
| L4_IPC_NEVER
| L4_IPC_BOTH_TIMEOUT_0.

Record l4_msgtag_t : Type := l4_msgtag
  { tag_label : Z; tag_words : Z; tag_items : Z; tag_flags : Z }.

(** The scheduling parameters as [main] fills them in: the priority given to
    [l4_sched_param] and the two arguments of [l4_sched_cpu_set]. *)
Record l4_sched_param_t : Type :=
  { prio : Z; affinity_offset : Z; affinity_granularity : Z }.

(** The two message registers the program uses, [mr[0]] and [mr[1]]. *)
Record l4_msg_regs_t : Type := { mr_0 : Z; mr_1 : Z }.

Record timespec : Type := { tv_sec : Z; tv_nsec : Z }.

Inductive event : Type :=
| printf (fmt : string) (args : list Z)
| fprintf_stderr (fmt : string) (args : list Z)
| l4_ipc_call (dest : Z) (tag : l4_msgtag_t) (timeout : l4_timeout_t)
| l4_ipc_wait (timeout : l4_timeout_t)
| l4_ipc_reply_and_wait (tag : l4_msgtag_t) (mr : l4_msg_regs_t)
                        (timeout : l4_timeout_t)
| run_thread (thread : Z) (sp : l4_sched_param_t).

(** How a procedure ends on the inputs it was given: it returns, it stays
    suspended in an IPC operation for which the environment has no further
    answer, or it executes an operation whose behaviour C++ leaves
    undefined. *)
Inductive outcome (A : Type) : Type :=
| Done (a : A)
| Blocked
| Undefined.
Arguments Done {A} a.
Arguments Blocked {A}.
Arguments Undefined {A}.

(** A computation: the events it performed, in order, and how it ended. *)
Definition run (A : Type) : Type := (list event * outcome A)%type.

Definition ret {A : Type} (a : A) : run A := ([], Done a).

Definition bind {A B : Type} (m : run A) (f : A -> run B) : run B :=
  match m with
  | (l, Done a) => let (l', r) := f a in (l ++ l', r)
  | (l, Blocked) => (l, Blocked)
  | (l, Undefined) => (l, Undefined)
  end.

Definition emit (e : event) : run unit := ([e], Done tt).
Definition blocked {A : Type} : run A := ([], Blocked).
Definition undefined {A : Type} : run A := ([], Undefined).

Declare Scope run_scope.
Delimit Scope run_scope with run.
Notation "x <- m ;; k" := (bind m (fun x => k))
  (at level 100, m at next level, right associativity) : run_scope.
Notation "' p <- m ;; k" := (bind m (fun x => let p := x in k))
  (at level 100, p pattern, m at next level, right associativity) : run_scope.
Notation "m ;;; k" := (bind m (fun _ => k))
  (at level 100, right associativity) : run_scope.
Local Open Scope run_scope.

(** Signed [long] operations, undefined on overflow and on division by
    zero. *)
Definition checked (x : Z) : run Z :=
  if in_long x then ret x else undefined.

Definition smul (a b : Z) : run Z := checked (a * b).
Definition sadd (a b : Z) : run Z := checked (a + b).
Definition sdiv (a b : Z) : run Z :=
  if b =? 0 then undefined else checked (Z.quot a b).
Definition srem (a b : Z) : run Z :=
  if (b =? 0) || negb (in_long (Z.quot a b)) then undefined
  else ret (Z.rem a b).
Definition udiv (a b : Z) : run Z :=
  if b =? 0 then undefined else ret (a / b).

(** ** The initiator, [thread1_fn] *)

(** What one pass through the loop body reads from its environment. *)
Record attempt : Type :=
  { tp : timespec;              (* clock_gettime(CLOCK_MONOTONIC, &tp) *)
    tsc_start : Z;              (* first __builtin_ia32_rdtsc () *)
    tsc_end : Z;                (* second __builtin_ia32_rdtsc () *)
    ipc_error : Z;              (* l4_ipc_error(tag, l4_utcb()) *)
    reply : l4_msg_regs_t }.    (* message registers when the call returns *)

(** The variables that live across iterations, and the message registers. *)
Record thread1_vars : Type :=
  { ts_total : timespec; tsc_sum : Z; utcb_mr : l4_msg_regs_t }.

Definition BENCH_SIZE : Z := 100000.

(** [--i] and [++i] on [unsigned i]. *)
Definition decr (i : Z) : Z := to_unsigned (i - 1).
Definition incr (i : Z) : Z := to_unsigned (i + 1).

(** The two right-hand sides of the [+=] in the success branch, lines 64 to
    71.  [mr] has type [l4_umword_t], so each is computed in
    [unsigned long]. *)
Definition elapsed (tp : timespec) (mr : l4_msg_regs_t) : Z * Z :=
  if tv_nsec tp >? to_long (mr_1 mr)
  then (to_ulong (to_ulong (mr_0 mr + 1) - to_ulong (tv_sec tp)),
        to_ulong (to_ulong (mr_1 mr + 1000000000) - to_ulong (tv_nsec tp)))
  else (to_ulong (mr_0 mr - to_ulong (tv_sec tp)),
        to_ulong (mr_1 mr - to_ulong (tv_nsec tp))).

(** [ts_total.tv_sec += ...; ts_total.tv_nsec += ...]: the sum is formed in
    [unsigned long] and converted back to [long]. *)
Definition accumulate (total : timespec) (a : attempt) : timespec :=
  let (dsec, dnsec) := elapsed (tp a) (reply a) in
  {| tv_sec := to_long (to_ulong (tv_sec total) + dsec);
     tv_nsec := to_long (to_ulong (tv_nsec total) + dnsec) |}.

(** Line 53: [tsc_sum += __builtin_ia32_rdtsc () - tsc_start], in
    [unsigned long long]. *)
Definition add_cycles (sum : Z) (a : attempt) : Z :=
  to_ullong (sum + to_ullong (tsc_end a - tsc_start a)).

Definition cleared : l4_msg_regs_t := {| mr_0 := 0; mr_1 := 0 |}.

(** Lines 46 to 76: one pass through the body of the [for] loop.  The result
    is the value of [i] and of the variables when the body ends. *)
Definition loop_body (t2 : Z) (i : Z) (v : thread1_vars) (a : attempt)
  : run (Z * thread1_vars) :=
  emit (l4_ipc_call t2 (l4_msgtag 0 0 0 0) L4_IPC_NEVER) ;;;
  let tsc_sum' := add_cycles (tsc_sum v) a in
  '(i', total') <-
    (if negb (ipc_error a =? 0)
     then
       emit (fprintf_stderr "thread1: IPC error: %x\n" [ipc_error a]) ;;;
       ret (decr i, ts_total v)
     else ret (i, accumulate (ts_total v) a)) ;;
  ret (i', {| ts_total := total'; tsc_sum := tsc_sum'; utcb_mr := cleared |}).

(** Line 44: [for (unsigned i = ...; i < BENCH_SIZE; ++i)], from the test of
    the condition on.  Every pass consumes one attempt; without one the call
    never returns. *)
Fixpoint thread1_loop (t2 bench i : Z) (v : thread1_vars) (tr : list attempt)
  : run (thread1_vars * list attempt) :=
  if i <? bench then
    match tr with
    | [] => blocked
    | a :: tr' =>
        '(i', v') <- loop_body t2 i v a ;;
        thread1_loop t2 bench (incr i') v' tr'
    end
  else ret (v, tr).

(** Lines 80 to 85. *)
Definition report (bench : Z) (v : thread1_vars) : run unit :=
  let ts := ts_total v in
  seconds_as_ns <- smul (tv_sec ts) 1000000000 ;;
  emit (printf "Total l4_ipc_call() time: %5lu.%09lus\n"
               [tv_sec ts; tv_nsec ts]) ;;;
  q <- sdiv seconds_as_ns 1000000000 ;;
  avg_sec <- sdiv q bench ;;
  r <- srem seconds_as_ns 1000000000 ;;
  s <- sadd (tv_nsec ts) r ;;
  avg_nsec <- sdiv s bench ;;
  emit (printf "AVG l4_ipc_call() time  : %5lu.%09lus\n"
               [avg_sec; avg_nsec]) ;;;
  avg_cycles <- udiv (tsc_sum v) bench ;;
  emit (printf "AVG IPC Roundtrip cycles: %15llu\n" [avg_cycles]).

Definition thread1_init (mr : l4_msg_regs_t) : thread1_vars :=
  {| ts_total := {| tv_sec := 0; tv_nsec := 0 |};
     tsc_sum := 0;
     utcb_mr := mr |}.

(** [thread1_fn], with the global [t2], the message registers at entry and
    the answers of the environment as arguments. *)
Definition thread1_fn (t2 : Z) (mr : l4_msg_regs_t) (tr : list attempt)
  : run unit :=
  '(v, _) <- thread1_loop t2 BENCH_SIZE 0 (thread1_init mr) tr ;;
  report BENCH_SIZE v.

(** ** The responder, [thread2_fn] *)

(** What the responder finds when a wait returns: the error code of the
    operation, and the time [clock_gettime] gives at that moment. *)
Record wakeup : Type :=
  { w_ipc_error : Z;            (* l4_ipc_error(tag, l4_utcb()) *)
    w_tp : timespec }.          (* clock_gettime(CLOCK_MONOTONIC, &tp) *)

(** Lines 104 to 121: one pass through the body of [while (1)], up to and
    including the operation in which the thread suspends again. *)
Definition thread2_body (w : wakeup) : run unit :=
  if negb (w_ipc_error w =? 0)
  then
    emit (fprintf_stderr "thread2: IPC error: %x\n" [w_ipc_error w]) ;;;
    emit (l4_ipc_wait L4_IPC_NEVER)
  else
    let mr := {| mr_0 := to_ulong (tv_sec (w_tp w));
                 mr_1 := to_ulong (tv_nsec (w_tp w)) |} in
    emit (l4_ipc_reply_and_wait (l4_msgtag 0 2 0 0) mr L4_IPC_NEVER).

(** [while (1)] has no [break] and no [return] inside: the loop is left only
    by staying suspended.  The result type is that of the [return NULL] in
    line 123. *)
Fixpoint thread2_loop (ws : list wakeup) : run Z :=
  match ws with
  | [] => blocked
  | w :: ws' => thread2_body w ;;; thread2_loop ws'
  end.

Definition thread2_fn (ws : list wakeup) : run Z :=
  emit (l4_ipc_wait L4_IPC_NEVER) ;;;
  thread2_loop ws.

(** ** The bootstrap, [main] *)

Definition l4_sched_param (p : Z) : l4_sched_param_t :=
  {| prio := p; affinity_offset := 0; affinity_granularity := 0 |}.

Definition set_affinity (sp : l4_sched_param_t) (offset granularity : Z)
  : l4_sched_param_t :=
  {| prio := prio sp;
     affinity_offset := offset;
     affinity_granularity := granularity |}.

(** [main], with the result of [pthread_create], the thread handle it stored
    in [t2], the value of [l4_error] for the scheduler's answer, and the
    inputs of [thread1_fn] as arguments.  The responder that
    [pthread_create] started runs beside it; what it does to the initiator
    is in the attempts of [tr].  The result is the exit status. *)
Definition main (pthread_create_rc t2 l4_error : Z)
                (mr : l4_msg_regs_t) (tr : list attempt) : run Z :=
  if negb (pthread_create_rc =? 0)
  then
    emit (fprintf_stderr "Thread creation failed\n" []) ;;;
    ret 1
  else
    let sp := l4_sched_param 20 in
    let c := 1 in
    let sp := set_affinity sp c 0 in
    emit (run_thread t2 sp) ;;;
    (if negb (l4_error =? 0)
     then emit (printf "Error migrating thread %p to CPU: %02d\n" [t2; c])
     else ret tt) ;;;
    emit (printf "Migrated Thread %p -> CPU: %02d\n" [t2; c]) ;;;
    thread1_fn t2 mr tr ;;;
    ret 0.

(** The request [main] hands to the scheduler: priority 20, CPU 1. *)
Definition placement : l4_sched_param_t :=
  {| prio := 20; affinity_offset := 1; affinity_granularity := 0 |}.

(** ** What the specification asks of the time arithmetic *)

(** The difference of two time stamps as the specification words it: borrow
    one second when the reply's nanoseconds are below the send's. *)
Definition elapsed_spec (send : timespec) (mr : l4_msg_regs_t) : Z * Z :=
  if mr_1 mr <? tv_nsec send
  then (mr_0 mr - tv_sec send - 1, mr_1 mr + 1000000000 - tv_nsec send)
  else (mr_0 mr - tv_sec send, mr_1 mr - tv_nsec send).

(** The average as the specification words it: the whole duration in
    nanoseconds divided by the number of trials, then split into seconds and
    the nanoseconds below one second. *)
Definition average_spec (bench : Z) (total : timespec) : Z * Z :=
  let ns := (tv_sec total * 1000000000 + tv_nsec total) / bench in
  (ns / 1000000000, ns mod 1000000000).

(** ** Traces *)

Definition succeeded (a : attempt) : bool := ipc_error a =? 0.
Definition failed (a : attempt) : bool := negb (ipc_error a =? 0).

Definition successes (tr : list attempt) : list attempt := filter succeeded tr.
Definition failures (tr : list attempt) : list attempt := filter failed tr.

Definition is_call (e : event) : bool :=
  match e with l4_ipc_call _ _ _ => true | _ => false end.

Definition is_stderr (e : event) : bool :=
  match e with fprintf_stderr _ _ => true | _ => false end.

Definition is_printf (e : event) : bool :=
  match e with printf _ _ => true | _ => false end.

Definition is_reply (e : event) : bool :=
  match e with l4_ipc_reply_and_wait _ _ _ => true | _ => false end.

(** A time stamp of the monotonic clock: seconds that leave room for one
    more, nanoseconds below one second. *)
Definition valid_time (sec nsec : Z) : Prop :=
  0 <= sec < LONG_MAX /\ 0 <= nsec < 1000000000.

(** [(s1, n1)] is not later than [(s2, n2)]. *)
Definition time_le (s1 n1 s2 n2 : Z) : Prop :=
  s1 < s2 \/ (s1 = s2 /\ n1 <= n2).

(** A successful trial sent at [sec] s 0 ns and answered [late] s 10000 ns
    later. *)
Definition trial_at (sec late : Z) : attempt :=
  {| tp := {| tv_sec := sec; tv_nsec := 0 |};
     tsc_start := 0; tsc_end := 30000; ipc_error := 0;
     reply := {| mr_0 := sec + late; mr_1 := 10000 |} |}.

Fixpoint quick_trials (n : nat) (sec : Z) : list attempt :=
  match n with
  | O => []
  | S n' => trial_at sec 0 :: quick_trials n' (sec + 2)
  end.

(** A run of [BENCH_SIZE] successful trials, one started every two seconds.
    Each is answered 10000 ns after it was sent, except the first, which is
    answered one second later than that. *)
Definition one_slow_trial : list attempt :=
  trial_at 0 1 :: quick_trials (Z.to_nat (BENCH_SIZE - 1)) 2.

(** ** Reading a run *)

(** What one attempt shows to the outside: the call, and after a failure the
    line on [stderr] with the error code. *)
Definition attempt_events (t2 : Z) (a : attempt) : list event :=
  l4_ipc_call t2 (l4_msgtag 0 0 0 0) L4_IPC_NEVER ::
  (if failed a
   then [fprintf_stderr "thread1: IPC error: %x\n" [ipc_error a]]
   else []).

(** The cycle differences of a list of attempts, added up without wrap. *)
Definition cycles_spent (tr : list attempt) : Z :=
  fold_right (fun a s => (tsc_end a - tsc_start a) + s) 0 tr.

(** A successful attempt between two readings of the monotonic clock, the
    reply not before the send; any failed attempt. *)
Definition sane (a : attempt) : bool :=
  failed a ||
  ((0 <=? tv_sec (tp a)) && (tv_sec (tp a) <? LONG_MAX) &&
   (0 <=? tv_nsec (tp a)) && (tv_nsec (tp a) <? 1000000000) &&
   (0 <=? mr_0 (reply a)) && (mr_0 (reply a) <? LONG_MAX) &&
   (0 <=? mr_1 (reply a)) && (mr_1 (reply a) <? 1000000000) &&
   ((tv_sec (tp a) <? mr_0 (reply a)) ||
    ((tv_sec (tp a) =? mr_0 (reply a)) &&
     (tv_nsec (tp a) <=? mr_1 (reply a))))).

Definition answered (w : wakeup) : bool := w_ipc_error w =? 0.
Definition dropped (w : wakeup) : bool := negb (w_ipc_error w =? 0).

(** The operations in which a thread suspends. *)
Definition is_blocking (e : event) : bool :=
  match e with
  | l4_ipc_call _ _ _ | l4_ipc_wait _ | l4_ipc_reply_and_wait _ _ _ => true
  | _ => false
  end.

Definition is_run_thread (e : event) : bool :=
  match e with run_thread _ _ => true | _ => false end.

(** The trials in which the reply's nanoseconds are below the send's. *)
Definition borrowed (a : attempt) : bool := mr_1 (reply a) <? tv_nsec (tp a).

(** The specification's differences added up over a list of trials. *)
Definition spec_seconds (tr : list attempt) : Z :=
  fold_right (fun a s => fst (elapsed_spec (tp a) (reply a)) + s) 0 tr.

Definition spec_nanoseconds (tr : list attempt) : Z :=
  fold_right (fun a s => snd (elapsed_spec (tp a) (reply a)) + s) 0 tr.

(** * Properties *)

(** ** Arithmetic of the machine integers *)

Lemma to_unsigned_mod (x : Z) : to_unsigned x = x mod 2 ^ 32.
Proof. unfold to_unsigned. change UINT_MAX with (Z.ones 32). apply Z.land_ones. lia. Qed.

Lemma to_ulong_mod (x : Z) : to_ulong x = x mod 2 ^ 64.
Proof. unfold to_ulong. change ULONG_MAX with (Z.ones 64). apply Z.land_ones. lia. Qed.

Lemma to_ullong_mod (x : Z) : to_ullong x = x mod 2 ^ 64.
Proof. exact (to_ulong_mod x). Qed.

Lemma to_long_mod (x : Z) :
  to_long x = if x mod 2 ^ 64 <? 2 ^ 63 then x mod 2 ^ 64 else x mod 2 ^ 64 - 2 ^ 64.
Proof.
  unfold to_long. fold (to_ulong x). rewrite to_ulong_mod. cbv zeta.
  change LONG_MAX with (2 ^ 63 - 1). change ULONG_MAX with (2 ^ 64 - 1).
  destruct (Z.leb_spec (x mod 2 ^ 64) (2 ^ 63 - 1));
    destruct (Z.ltb_spec (x mod 2 ^ 64) (2 ^ 63)); lia.
Qed.

Lemma to_ulong_small (x : Z) : 0 <= x < 2 ^ 64 -> to_ulong x = x.
Proof. intros H. rewrite to_ulong_mod. apply Z.mod_small, H. Qed.

Lemma to_long_small (x : Z) : 0 <= x < 2 ^ 63 -> to_long x = x.
Proof.
  intros H. rewrite to_long_mod, Z.mod_small by lia.
  destruct (Z.ltb_spec x (2 ^ 63)); lia.
Qed.

Lemma to_long_range (x : Z) : LONG_MIN <= to_long x <= LONG_MAX.
Proof.
  rewrite to_long_mod. change LONG_MIN with (- 2 ^ 63). change LONG_MAX with (2 ^ 63 - 1).
  pose proof (Z.mod_pos_bound x (2 ^ 64) ltac:(lia)).
  destruct (Z.ltb_spec (x mod 2 ^ 64) (2 ^ 63)); lia.
Qed.

Lemma decr_zero : decr 0 = UINT_MAX.
Proof. reflexivity. Qed.

Lemma incr_max : incr UINT_MAX = 0.
Proof. reflexivity. Qed.

(** A decrement followed by the increment of the [for] statement gives the
    counter back, at zero like everywhere else. *)
Lemma incr_decr (i : Z) : 0 <= i < 2 ^ 32 -> incr (decr i) = i.
Proof.
  intros H. unfold incr, decr. rewrite !to_unsigned_mod.
  rewrite Zplus_mod_idemp_l. replace (i - 1 + 1) with i by lia.
  apply Z.mod_small, H.
Qed.

Lemma incr_below (i : Z) : 0 <= i < 2 ^ 32 - 1 -> incr i = i + 1.
Proof.
  intros H. unfold incr. rewrite to_unsigned_mod. apply Z.mod_small. lia.
Qed.

(** ** One pass through the initiator's loop body *)

Lemma loop_body_failed (t2 i : Z) (v : thread1_vars) (a : attempt) :
  failed a = true ->
  loop_body t2 i v a =
  ([l4_ipc_call t2 (l4_msgtag 0 0 0 0) L4_IPC_NEVER;
    fprintf_stderr "thread1: IPC error: %x\n" [ipc_error a]],
   Done (decr i, {| ts_total := ts_total v;
                    tsc_sum := add_cycles (tsc_sum v) a;
                    utcb_mr := cleared |})).
Proof.
  unfold failed, loop_body. intros H. rewrite H. reflexivity.
Qed.

Lemma loop_body_succeeded (t2 i : Z) (v : thread1_vars) (a : attempt) :
  succeeded a = true ->
  loop_body t2 i v a =
  ([l4_ipc_call t2 (l4_msgtag 0 0 0 0) L4_IPC_NEVER],
   Done (i, {| ts_total := accumulate (ts_total v) a;
               tsc_sum := add_cycles (tsc_sum v) a;
               utcb_mr := cleared |})).
Proof.
  unfold succeeded, loop_body. intros H. rewrite H. reflexivity.
Qed.

Lemma failed_or_succeeded (a : attempt) :
  {failed a = true /\ succeeded a = false} +
  {failed a = false /\ succeeded a = true}.
Proof.
  unfold failed, succeeded. destruct (ipc_error a =? 0); [right | left]; auto.
Qed.

(** Case analysis on how an attempt ended. *)
Ltac by_outcome a Hf Hs :=
  destruct (failed_or_succeeded a) as [[Hf Hs] | [Hf Hs]].

Lemma failed_iff (a : attempt) : failed a = true <-> ipc_error a <> 0.
Proof.
  unfold failed. destruct (Z.eqb_spec (ipc_error a) 0); simpl; split; intros; congruence.
Qed.

Lemma succeeded_iff (a : attempt) : succeeded a = true <-> ipc_error a = 0.
Proof. unfold succeeded. apply Z.eqb_eq. Qed.

(** ** The time arithmetic on time stamps of the monotonic clock *)

(** On valid time stamps with the reply not before the send, nothing wraps:
    the code adds one second where it takes the borrow branch. *)
Lemma elapsed_of_valid (send : timespec) (mr : l4_msg_regs_t) :
  valid_time (tv_sec send) (tv_nsec send) ->
  valid_time (mr_0 mr) (mr_1 mr) ->
  time_le (tv_sec send) (tv_nsec send) (mr_0 mr) (mr_1 mr) ->
  elapsed send mr =
  if mr_1 mr <? tv_nsec send
  then (mr_0 mr + 1 - tv_sec send, mr_1 mr + 1000000000 - tv_nsec send)
  else (mr_0 mr - tv_sec send, mr_1 mr - tv_nsec send).
Proof.
  unfold valid_time, time_le, LONG_MAX. intros [Hs Hn] [Hs' Hn'] Hle.
  unfold elapsed. rewrite Z.gtb_ltb, (to_long_small (mr_1 mr)) by lia.
  rewrite (to_ulong_small (tv_sec send)), (to_ulong_small (tv_nsec send)) by lia.
  destruct (Z.ltb_spec (mr_1 mr) (tv_nsec send)).
  - rewrite (to_ulong_small (mr_0 mr + 1)), (to_ulong_small (mr_1 mr + 1000000000)) by lia.
    rewrite !to_ulong_small by lia. reflexivity.
  - rewrite !to_ulong_small by lia. reflexivity.
Qed.

(** Without a borrow the code computes the difference the specification
    describes. *)
Lemma elapsed_without_borrow (send : timespec) (mr : l4_msg_regs_t) :
  valid_time (tv_sec send) (tv_nsec send) ->
  valid_time (mr_0 mr) (mr_1 mr) ->
  time_le (tv_sec send) (tv_nsec send) (mr_0 mr) (mr_1 mr) ->
  tv_nsec send <= mr_1 mr ->
  elapsed send mr = elapsed_spec send mr.
Proof.
  intros Hs Hr Hle Hn. rewrite elapsed_of_valid by assumption.
  unfold elapsed_spec. destruct (Z.ltb_spec (mr_1 mr) (tv_nsec send)); [lia | reflexivity].
Qed.

(** With a borrow the seconds are two more than the specification's, the
    nanoseconds the same. *)
Lemma elapsed_with_borrow (send : timespec) (mr : l4_msg_regs_t) :
  valid_time (tv_sec send) (tv_nsec send) ->
  valid_time (mr_0 mr) (mr_1 mr) ->
  time_le (tv_sec send) (tv_nsec send) (mr_0 mr) (mr_1 mr) ->
  mr_1 mr < tv_nsec send ->
  elapsed send mr = (fst (elapsed_spec send mr) + 2, snd (elapsed_spec send mr)).
Proof.
  intros Hs Hr Hle Hn. rewrite elapsed_of_valid by assumption.
  unfold elapsed_spec. destruct (Z.ltb_spec (mr_1 mr) (tv_nsec send)); [| lia].
  simpl. f_equal. lia.
Qed.

(** ** Running the loop *)

Lemma successes_cons_failed (a : attempt) (tr : list attempt) :
  succeeded a = false -> successes (a :: tr) = successes tr.
Proof. intros H. unfold successes. simpl. rewrite H. reflexivity. Qed.

Lemma successes_cons_succeeded (a : attempt) (tr : list attempt) :
  succeeded a = true -> successes (a :: tr) = a :: successes tr.
Proof. intros H. unfold successes. simpl. rewrite H. reflexivity. Qed.

Lemma failures_cons_failed (a : attempt) (tr : list attempt) :
  failed a = true -> failures (a :: tr) = a :: failures tr.
Proof. intros H. unfold failures. simpl. rewrite H. reflexivity. Qed.

Lemma failures_cons_succeeded (a : attempt) (tr : list attempt) :
  failed a = false -> failures (a :: tr) = failures tr.
Proof. intros H. unfold failures. simpl. rewrite H. reflexivity. Qed.

Section Loop.

Variables t2 bench : Z.
Hypothesis bench_unsigned : 0 <= bench < 2 ^ 32.

Lemma thread1_loop_exit (i : Z) (v : thread1_vars) (tr : list attempt) :
  bench <= i -> thread1_loop t2 bench i v tr = ([], Done (v, tr)).
Proof.
  intros H. destruct tr; simpl; destruct (Z.ltb_spec i bench); try lia; reflexivity.
Qed.

Lemma thread1_loop_step (i : Z) (v : thread1_vars) (a : attempt)
      (tr : list attempt) :
  i < bench ->
  thread1_loop t2 bench i v (a :: tr) =
  ('(i', v') <- loop_body t2 i v a ;; thread1_loop t2 bench (incr i') v' tr)%run.
Proof.
  intros H. simpl. destruct (Z.ltb_spec i bench); [reflexivity | lia].
Qed.

(** A failed attempt leaves the counter where it was. *)
Lemma thread1_loop_failed (i : Z) (v : thread1_vars) (a : attempt)
      (tr : list attempt) :
  0 <= i < bench -> failed a = true ->
  thread1_loop t2 bench i v (a :: tr) =
  (_ <- loop_body t2 i v a ;;
   thread1_loop t2 bench i
     {| ts_total := ts_total v;
        tsc_sum := add_cycles (tsc_sum v) a;
        utcb_mr := cleared |} tr)%run.
Proof.
  intros Hi Hf. rewrite thread1_loop_step by lia.
  rewrite loop_body_failed by exact Hf. cbn [bind].
  rewrite incr_decr by lia. reflexivity.
Qed.

(** A successful attempt moves it on by one. *)
Lemma thread1_loop_succeeded (i : Z) (v : thread1_vars) (a : attempt)
      (tr : list attempt) :
  0 <= i < bench -> succeeded a = true ->
  thread1_loop t2 bench i v (a :: tr) =
  (_ <- loop_body t2 i v a ;;
   thread1_loop t2 bench (i + 1)
     {| ts_total := accumulate (ts_total v) a;
        tsc_sum := add_cycles (tsc_sum v) a;
        utcb_mr := cleared |} tr)%run.
Proof.
  intros Hi Hs. rewrite thread1_loop_step by lia.
  rewrite loop_body_succeeded by exact Hs. cbn [bind].
  rewrite incr_below by lia. reflexivity.
Qed.

(** The loop invariant behind retry: from counter [i], the loop runs until it
    has seen [bench - i] successes, whatever failures lie between them, and
    stops with the last of them.  The elapsed time is accumulated over the
    successes only, the cycles over every attempt; every attempt is one call
    and every failure one line on [stderr]. *)
Lemma thread1_loop_retries (tr : list attempt) :
  forall (i : Z) (v : thread1_vars),
    0 <= i <= bench ->
    bench - i <= Z.of_nat (length (successes tr)) ->
    exists consumed rest evs v',
      tr = consumed ++ rest /\
      thread1_loop t2 bench i v tr = (evs, Done (v', rest)) /\
      Z.of_nat (length (successes consumed)) = bench - i /\
      (forall c a, consumed = c ++ [a] -> succeeded a = true) /\
      ts_total v' = fold_left accumulate (successes consumed) (ts_total v) /\
      tsc_sum v' = fold_left add_cycles consumed (tsc_sum v) /\
      length (filter is_call evs) = length consumed /\
      length (filter is_stderr evs) = length (failures consumed).
Proof.
  induction tr as [| a tr' IH]; intros i v Hi Hn.
  - simpl in Hn. exists [], [], [], v.
    rewrite thread1_loop_exit by lia. simpl.
    repeat split; try lia. intros [| ? ?] ? ?; discriminate.
  - destruct (Z.eq_dec i bench) as [-> | Hne].
    { exists [], (a :: tr'), [], v.
      rewrite thread1_loop_exit by lia. simpl.
      repeat split; try lia. intros [| ? ?] ? ?; discriminate. }
    by_outcome a Hf Hs.
    + rewrite thread1_loop_failed by (lia || assumption).
      rewrite loop_body_failed by assumption. cbn [bind].
      rewrite successes_cons_failed in Hn by assumption.
      destruct (IH i {| ts_total := ts_total v;
                        tsc_sum := add_cycles (tsc_sum v) a;
                        utcb_mr := cleared |} Hi Hn)
        as (c & rest & evs & v' & -> & Hrun & Hc & Hlast & Ht & Hy & Hcalls & Herr).
      rewrite Hrun. exists (a :: c), rest. eexists. exists v'.
      split; [reflexivity |]. split; [reflexivity |].
      rewrite successes_cons_failed, failures_cons_failed by assumption.
      repeat split; auto; [| simpl; f_equal; assumption ..].
      intros [| x c0] a' Heq; simpl in Heq; injection Heq as <- Hrest.
      * subst c. simpl in Hc. lia.
      * eapply Hlast, Hrest.
    + rewrite thread1_loop_succeeded by (lia || assumption).
      rewrite loop_body_succeeded by assumption. cbn [bind].
      rewrite successes_cons_succeeded in Hn by assumption. simpl length in Hn.
      destruct (IH (i + 1) {| ts_total := accumulate (ts_total v) a;
                              tsc_sum := add_cycles (tsc_sum v) a;
                              utcb_mr := cleared |} ltac:(lia) ltac:(lia))
        as (c & rest & evs & v' & -> & Hrun & Hc & Hlast & Ht & Hy & Hcalls & Herr).
      rewrite Hrun. exists (a :: c), rest. eexists. exists v'.
      split; [reflexivity |]. split; [reflexivity |].
      rewrite successes_cons_succeeded, failures_cons_succeeded by assumption.
      repeat split; auto; [simpl length; lia | | simpl; f_equal; assumption].
      intros [| x c0] a' Heq; simpl in Heq; injection Heq as <- Hrest.
      * exact Hs.
      * eapply Hlast, Hrest.
Qed.

(** Registers that are clear when the loop is entered are clear when it is
    left. *)
Lemma thread1_loop_keeps_cleared (tr : list attempt) :
  forall (i : Z) (v v' : thread1_vars) (evs : list event) (rest : list attempt),
    utcb_mr v = cleared ->
    thread1_loop t2 bench i v tr = (evs, Done (v', rest)) ->
    utcb_mr v' = cleared.
Proof.
  induction tr as [| a tr' IH]; intros i v v' evs rest Hv Hrun.
  - simpl in Hrun. destruct (i <? bench); [discriminate |].
    injection Hrun as _ <- _. exact Hv.
  - simpl in Hrun. destruct (i <? bench).
    + by_outcome a Hf Hs;
        [rewrite loop_body_failed in Hrun by assumption
        | rewrite loop_body_succeeded in Hrun by assumption];
        cbn [bind] in Hrun;
        match type of Hrun with
        | context [thread1_loop t2 bench ?j ?w tr'] =>
            destruct (thread1_loop t2 bench j w tr') as [l [[w' r] | |]] eqn:Hl;
            try discriminate;
            injection Hrun as _ <- _; exact (IH j w w' l r eq_refl Hl)
        end.
    + injection Hrun as _ <- _. exact Hv.
Qed.

End Loop.

(** ** The claims about one trial *)

(** C1.  The specification has the borrow branch take one second away:
    seconds [reply - send - 1], nanoseconds [reply + 1000000000 - send].
    Line 66 adds one instead.  For a call sent at 0 s 900 ns and answered at
    1 s 100 ns, 999999200 ns later, the specification's difference is
    (0, 999999200); the code adds (2, 999999200) to [ts_total]. *)
Theorem borrow_branch_adds_one_second :
  let a := {| tp := {| tv_sec := 0; tv_nsec := 900 |};
              tsc_start := 0; tsc_end := 0; ipc_error := 0;
              reply := {| mr_0 := 1; mr_1 := 100 |} |} in
  elapsed_spec (tp a) (reply a) = (0, 999999200) /\
  elapsed (tp a) (reply a) = (2, 999999200) /\
  loop_body 0 0 (thread1_init cleared) a =
  ([l4_ipc_call 0 (l4_msgtag 0 0 0 0) L4_IPC_NEVER],
   Done (0, {| ts_total := {| tv_sec := 2; tv_nsec := 999999200 |};
               tsc_sum := 0;
               utcb_mr := cleared |})).
Proof.
  cbv zeta. repeat split; vm_compute; reflexivity.
Qed.

(** C4.  Every pass through the loop body ends with the cycle difference
    [tsc_end - tsc_start] added to [tsc_sum] (in 64-bit unsigned arithmetic,
    so exactly when nothing wraps), whether or not the call failed; and a
    pass whose error code is not zero leaves both fields of [ts_total] as
    they were. *)
Theorem cycles_always_time_only_on_success
        (t2 i : Z) (v : thread1_vars) (a : attempt) :
  exists evs i' v',
    loop_body t2 i v a = (evs, Done (i', v')) /\
    tsc_sum v' = (tsc_sum v + (tsc_end a - tsc_start a) mod 2 ^ 64) mod 2 ^ 64 /\
    (0 <= tsc_start a <= tsc_end a ->
     0 <= tsc_sum v ->
     tsc_sum v + (tsc_end a - tsc_start a) < 2 ^ 64 ->
     tsc_sum v' = tsc_sum v + (tsc_end a - tsc_start a)) /\
    (ipc_error a <> 0 ->
     tv_sec (ts_total v') = tv_sec (ts_total v) /\
     tv_nsec (ts_total v') = tv_nsec (ts_total v)).
Proof.
  assert (Hsum : add_cycles (tsc_sum v) a =
                 (tsc_sum v + (tsc_end a - tsc_start a) mod 2 ^ 64) mod 2 ^ 64).
  { unfold add_cycles. rewrite !to_ullong_mod. reflexivity. }
  assert (Hexact : 0 <= tsc_start a <= tsc_end a -> 0 <= tsc_sum v ->
                   tsc_sum v + (tsc_end a - tsc_start a) < 2 ^ 64 ->
                   add_cycles (tsc_sum v) a = tsc_sum v + (tsc_end a - tsc_start a)).
  { intros H1 H2 H3. rewrite Hsum.
    rewrite (Z.mod_small (tsc_end a - tsc_start a)) by lia.
    apply Z.mod_small. lia. }
  by_outcome a Hf Hs.
  - rewrite loop_body_failed by assumption.
    do 3 eexists. split; [reflexivity |]. simpl. auto.
  - rewrite loop_body_succeeded by assumption.
    do 3 eexists. split; [reflexivity |]. simpl.
    repeat split; auto; apply succeeded_iff in Hs; contradiction.
Qed.

Lemma cycles_always_time_only_on_success_witness :
  let v := {| ts_total := {| tv_sec := 3; tv_nsec := 250 |};
              tsc_sum := 1000; utcb_mr := cleared |} in
  let a := {| tp := {| tv_sec := 5; tv_nsec := 0 |};
              tsc_start := 40; tsc_end := 75; ipc_error := 4;
              reply := {| mr_0 := 9; mr_1 := 9 |} |} in
  exists evs i' v',
    loop_body 7 2 v a = (evs, Done (i', v')) /\
    tsc_sum v' = 1035 /\
    tv_sec (ts_total v') = 3 /\ tv_nsec (ts_total v') = 250.
Proof.
  intros v a.
  destruct (cycles_always_time_only_on_success 7 2 v a)
    as (evs & i' & v' & Hrun & _ & Hexact & Hkeep).
  exists evs, i', v'. split; [exact Hrun |]. split.
  - apply Hexact; simpl; lia.
  - apply Hkeep. simpl. lia.
Defined.

(** C5.  For a successful trial whose reply time stamp is not before the
    send time stamp (both of them readings of the monotonic clock), what the
    loop body adds to each field of [ts_total] is non-negative as a [long],
    so the combined seconds-and-nanoseconds amount is non-negative, and a
    field that does not overflow does not decrease. *)
Theorem elapsed_nonnegative (t2 i : Z) (v : thread1_vars) (a : attempt) :
  ipc_error a = 0 ->
  valid_time (tv_sec (tp a)) (tv_nsec (tp a)) ->
  valid_time (mr_0 (reply a)) (mr_1 (reply a)) ->
  time_le (tv_sec (tp a)) (tv_nsec (tp a)) (mr_0 (reply a)) (mr_1 (reply a)) ->
  exists dsec dnsec evs v',
    loop_body t2 i v a = (evs, Done (i, v')) /\
    elapsed (tp a) (reply a) = (dsec, dnsec) /\
    tv_sec (ts_total v') = to_long (to_ulong (tv_sec (ts_total v)) + dsec) /\
    tv_nsec (ts_total v') = to_long (to_ulong (tv_nsec (ts_total v)) + dnsec) /\
    to_long dsec = dsec /\ to_long dnsec = dnsec /\
    0 <= to_long dsec /\ 0 <= to_long dnsec /\
    0 <= to_long dsec * 1000000000 + to_long dnsec /\
    (0 <= tv_sec (ts_total v) -> tv_sec (ts_total v) + dsec <= LONG_MAX ->
     tv_sec (ts_total v') = tv_sec (ts_total v) + dsec) /\
    (0 <= tv_nsec (ts_total v) -> tv_nsec (ts_total v) + dnsec <= LONG_MAX ->
     tv_nsec (ts_total v') = tv_nsec (ts_total v) + dnsec).
Proof.
  intros Hok Hs Hr Hle. apply succeeded_iff in Hok.
  pose proof (elapsed_of_valid _ _ Hs Hr Hle) as He.
  unfold valid_time, time_le, LONG_MAX in *.
  destruct Hs as [Hs Hn], Hr as [Hs' Hn'].
  assert (Hd : exists dsec dnsec,
             elapsed (tp a) (reply a) = (dsec, dnsec) /\
             0 <= dsec < 2 ^ 63 /\ 0 <= dnsec < 2 ^ 63).
  { rewrite He. destruct (Z.ltb_spec (mr_1 (reply a)) (tv_nsec (tp a)));
      do 2 eexists; (split; [reflexivity | lia]). }
  destruct Hd as (dsec & dnsec & Hd & Hdsec & Hdnsec).
  exists dsec, dnsec. rewrite loop_body_succeeded by exact Hok.
  do 2 eexists. split; [reflexivity |]. split; [exact Hd |].
  cbn [ts_total]. unfold accumulate. rewrite Hd. cbn [tv_sec tv_nsec].
  rewrite (to_long_small dsec), (to_long_small dnsec) by lia.
  repeat split; try reflexivity; try lia.
  - intros H1 H2. rewrite to_ulong_small by lia. apply to_long_small. lia.
  - intros H1 H2. rewrite to_ulong_small by lia. apply to_long_small. lia.
Qed.

Lemma elapsed_nonnegative_witness :
  let v := {| ts_total := {| tv_sec := 4; tv_nsec := 1500000000 |};
              tsc_sum := 0; utcb_mr := cleared |} in
  let a := {| tp := {| tv_sec := 7; tv_nsec := 900 |};
              tsc_start := 0; tsc_end := 0; ipc_error := 0;
              reply := {| mr_0 := 8; mr_1 := 100 |} |} in
  exists dsec dnsec evs v',
    loop_body 7 0 v a = (evs, Done (0, v')) /\
    elapsed (tp a) (reply a) = (dsec, dnsec) /\
    0 <= to_long dsec /\ 0 <= to_long dnsec /\
    tv_sec (ts_total v') = 4 + dsec /\
    tv_nsec (ts_total v') = 1500000000 + dnsec.
Proof.
  intros v a.
  destruct (elapsed_nonnegative 7 0 v a) as
      (dsec & dnsec & evs & v' & Hrun & He & _ & _ & _ & _ & Hs & Hn & _ & Hsec & Hnsec).
  - reflexivity.
  - unfold valid_time, LONG_MAX. simpl. lia.
  - unfold valid_time, LONG_MAX. simpl. lia.
  - unfold time_le. simpl. lia.
  - exists dsec, dnsec, evs, v'.
    split; [exact Hrun |]. split; [exact He |]. split; [exact Hs |]. split; [exact Hn |].
    assert (Hv : (dsec, dnsec) = (2, 999999200)) by (rewrite <- He; reflexivity).
    injection Hv as -> ->.
    split; [apply Hsec | apply Hnsec]; unfold LONG_MAX; simpl; lia.
Defined.

(** C6.  Every pass through the loop body, failed or not, runs to its end
    and leaves zero in both message registers, [mr[0]] and [mr[1]]. *)
Theorem message_registers_cleared
        (t2 i : Z) (v : thread1_vars) (a : attempt) :
  exists evs i' v',
    loop_body t2 i v a = (evs, Done (i', v')) /\
    mr_0 (utcb_mr v') = 0 /\ mr_1 (utcb_mr v') = 0.
Proof.
  by_outcome a Hf Hs.
  - rewrite loop_body_failed by assumption. do 3 eexists. split; [reflexivity |].
    split; reflexivity.
  - rewrite loop_body_succeeded by assumption. do 3 eexists. split; [reflexivity |].
    split; reflexivity.
Qed.

(** ** The claims about the whole loop *)

(** C3.  Whenever the transport lets [BENCH_SIZE] calls succeed, with any
    number of failures before each of them, the loop terminates.  It stops
    with the [BENCH_SIZE]-th successful call, having made exactly
    [BENCH_SIZE] of them; [ts_total] is the accumulation over these
    successes alone; every failure in between was retried (one call each)
    and reported once on [stderr]. *)
Theorem retry_completeness (t2 : Z) (mr : l4_msg_regs_t) (tr : list attempt) :
  BENCH_SIZE <= Z.of_nat (length (successes tr)) ->
  exists consumed rest evs v,
    tr = consumed ++ rest /\
    thread1_loop t2 BENCH_SIZE 0 (thread1_init mr) tr = (evs, Done (v, rest)) /\
    Z.of_nat (length (successes consumed)) = BENCH_SIZE /\
    (forall c a, consumed = c ++ [a] -> ipc_error a = 0) /\
    ts_total v = fold_left accumulate (successes consumed)
                           {| tv_sec := 0; tv_nsec := 0 |} /\
    length (filter is_call evs) = length consumed /\
    length (filter is_stderr evs) = length (failures consumed).
Proof.
  intros H.
  destruct (thread1_loop_retries t2 BENCH_SIZE ltac:(unfold BENCH_SIZE; lia)
              tr 0 (thread1_init mr) ltac:(unfold BENCH_SIZE; lia) ltac:(lia))
    as (c & rest & evs & v & Htr & Hrun & Hc & Hlast & Ht & _ & Hcalls & Herr).
  exists c, rest, evs, v. rewrite Z.sub_0_r in Hc.
  repeat split; auto.
  intros c0 a Heq. apply succeeded_iff. exact (Hlast c0 a Heq).
Qed.

Lemma retry_completeness_witness :
  let bad := {| tp := {| tv_sec := 1; tv_nsec := 0 |};
                tsc_start := 0; tsc_end := 500; ipc_error := 3;
                reply := {| mr_0 := 0; mr_1 := 0 |} |} in
  let good := {| tp := {| tv_sec := 1; tv_nsec := 0 |};
                 tsc_start := 0; tsc_end := 90; ipc_error := 0;
                 reply := {| mr_0 := 1; mr_1 := 4000 |} |} in
  let tr := flat_map (fun _ : unit => [bad; bad; good])
                     (repeat tt (Z.to_nat BENCH_SIZE)) in
  exists consumed rest evs v,
    tr = consumed ++ rest /\
    thread1_loop 7 BENCH_SIZE 0 (thread1_init cleared) tr = (evs, Done (v, rest)) /\
    Z.of_nat (length (successes consumed)) = BENCH_SIZE /\
    (forall c a, consumed = c ++ [a] -> ipc_error a = 0) /\
    ts_total v = fold_left accumulate (successes consumed)
                           {| tv_sec := 0; tv_nsec := 0 |} /\
    length (filter is_call evs) = length consumed /\
    length (filter is_stderr evs) = length (failures consumed).
Proof.
  intros bad good tr.
  apply (retry_completeness 7 cleared tr).
  apply Z.leb_le. vm_compute. reflexivity.
Defined.

(** C9.  The counter is an [unsigned]: at zero the decrement gives
    [2^32 - 1] and the increment of the [for] statement gives zero again,
    and in general a decrement followed by an increment gives the counter
    back.  So a failure in the first iteration is retried like any other:
    the loop goes on from counter zero with the rest of the trace and still
    stops after exactly [BENCH_SIZE] successful calls. *)
Theorem first_iteration_failure_retried
        (t2 : Z) (mr : l4_msg_regs_t) (a : attempt) (tr : list attempt) :
  ipc_error a <> 0 ->
  BENCH_SIZE <= Z.of_nat (length (successes tr)) ->
  decr 0 = 2 ^ 32 - 1 /\
  incr (2 ^ 32 - 1) = 0 /\
  (forall i, 0 <= i < 2 ^ 32 -> incr (decr i) = i) /\
  exists evs1 v1,
    loop_body t2 0 (thread1_init mr) a = (evs1, Done (2 ^ 32 - 1, v1)) /\
    ts_total v1 = ts_total (thread1_init mr) /\
    exists consumed rest evs v,
      tr = consumed ++ rest /\
      thread1_loop t2 BENCH_SIZE 0 v1 tr = (evs, Done (v, rest)) /\
      thread1_loop t2 BENCH_SIZE 0 (thread1_init mr) (a :: tr) =
        (evs1 ++ evs, Done (v, rest)) /\
      Z.of_nat (length (successes (a :: consumed))) = BENCH_SIZE /\
      ts_total v = fold_left accumulate (successes (a :: consumed))
                             {| tv_sec := 0; tv_nsec := 0 |}.
Proof.
  intros Ha Htr. apply failed_iff in Ha.
  split; [reflexivity |]. split; [reflexivity |]. split; [exact incr_decr |].
  do 2 eexists. split; [apply loop_body_failed, Ha |]. split; [reflexivity |].
  match goal with |- context [thread1_loop _ _ 0 ?x tr] => set (v1 := x) end.
  destruct (thread1_loop_retries t2 BENCH_SIZE ltac:(unfold BENCH_SIZE; lia)
              tr 0 v1 ltac:(unfold BENCH_SIZE; lia) ltac:(lia))
    as (c & rest & evs & v & Hc & Hrun & Hn & _ & Ht & _).
  exists c, rest, evs, v. split; [exact Hc |]. split; [exact Hrun |].
  assert (Hs : successes (a :: c) = successes c).
  { unfold successes. simpl. fold (succeeded a).
    destruct (failed_or_succeeded a) as [[_ ->] | [Hf _]]; [reflexivity | congruence]. }
  rewrite Hs. split; [| split; [lia | exact Ht]].
  rewrite thread1_loop_step by (unfold BENCH_SIZE; lia).
  rewrite loop_body_failed by exact Ha. cbn [bind].
  change (incr (decr 0)) with 0. fold v1. rewrite Hrun. reflexivity.
Qed.

Lemma first_iteration_failure_retried_witness :
  let bad := {| tp := {| tv_sec := 1; tv_nsec := 0 |};
                tsc_start := 0; tsc_end := 500; ipc_error := 3;
                reply := {| mr_0 := 0; mr_1 := 0 |} |} in
  let good := {| tp := {| tv_sec := 1; tv_nsec := 0 |};
                 tsc_start := 0; tsc_end := 90; ipc_error := 0;
                 reply := {| mr_0 := 1; mr_1 := 4000 |} |} in
  let tr := repeat good (Z.to_nat BENCH_SIZE) in
  exists evs1 v1 consumed rest evs v,
    loop_body 7 0 (thread1_init cleared) bad = (evs1, Done (4294967295, v1)) /\
    tr = consumed ++ rest /\
    thread1_loop 7 BENCH_SIZE 0 (thread1_init cleared) (bad :: tr) =
      (evs1 ++ evs, Done (v, rest)) /\
    Z.of_nat (length (successes (bad :: consumed))) = BENCH_SIZE.
Proof.
  intros bad good tr.
  destruct (first_iteration_failure_retried 7 cleared bad tr)
    as (_ & _ & _ & evs1 & v1 & Hbody & _ & c & rest & evs & v & Hc & _ & Hrun & Hn & _).
  - simpl. lia.
  - apply Z.leb_le. vm_compute. reflexivity.
  - exists evs1, v1, c, rest, evs, v. auto.
Defined.

(** ** The report *)

Lemma in_long_iff (x : Z) : in_long x = true <-> LONG_MIN <= x <= LONG_MAX.
Proof. unfold in_long. rewrite andb_true_iff, !Z.leb_le. tauto. Qed.

Lemma checked_in_long (x : Z) : in_long x = true -> checked x = ([], Done x).
Proof. unfold checked. intros ->. reflexivity. Qed.

Lemma quot_in_long (x b : Z) :
  0 < b -> in_long x = true -> in_long (Z.quot x b) = true.
Proof.
  rewrite !in_long_iff. unfold LONG_MIN, LONG_MAX. intros Hb Hx.
  Z.to_euclidean_division_equations. nia.
Qed.

Lemma sdiv_defined (x b : Z) :
  0 < b -> in_long x = true -> sdiv x b = ([], Done (Z.quot x b)).
Proof.
  intros Hb Hx. unfold sdiv. destruct (Z.eqb_spec b 0); [lia |].
  apply checked_in_long, quot_in_long; assumption.
Qed.

(** What lines 80 to 85 print when no signed operation overflows: each field
    of [ts_total] divided by the trial count on its own. *)
Lemma report_fieldwise (bench : Z) (v : thread1_vars) :
  0 < bench ->
  in_long (tv_sec (ts_total v) * 1000000000) = true ->
  in_long (tv_nsec (ts_total v)) = true ->
  report bench v =
  ([printf "Total l4_ipc_call() time: %5lu.%09lus\n"
           [tv_sec (ts_total v); tv_nsec (ts_total v)];
    printf "AVG l4_ipc_call() time  : %5lu.%09lus\n"
           [Z.quot (tv_sec (ts_total v)) bench;
            Z.quot (tv_nsec (ts_total v)) bench];
    printf "AVG IPC Roundtrip cycles: %15llu\n" [tsc_sum v / bench]],
   Done tt).
Proof.
  intros Hb Hs Hn. unfold report.
  set (sec := tv_sec (ts_total v)) in *. set (nsec := tv_nsec (ts_total v)) in *.
  assert (Hsec : in_long sec = true).
  { apply in_long_iff in Hs. apply in_long_iff. unfold LONG_MIN, LONG_MAX in *. lia. }
  unfold smul. rewrite (checked_in_long _ Hs). cbn [bind emit app].
  rewrite (sdiv_defined _ 1000000000) by (lia || assumption).
  rewrite Z.quot_mul by lia. cbn [bind app].
  rewrite (sdiv_defined sec bench) by assumption. cbn [bind app].
  unfold srem. rewrite Z.quot_mul, Z.rem_mul by lia. rewrite Hsec.
  cbn [Z.eqb negb orb bind app ret].
  unfold sadd. rewrite Z.add_0_r, (checked_in_long _ Hn). cbn [bind app].
  rewrite (sdiv_defined nsec bench) by assumption. cbn [bind app].
  unfold udiv. destruct (Z.eqb_spec bench 0); [lia |]. reflexivity.
Qed.

Lemma accumulate_in_long (total : timespec) (a : attempt) :
  in_long (tv_nsec (accumulate total a)) = true.
Proof.
  unfold accumulate. destruct (elapsed (tp a) (reply a)) as [dsec dnsec].
  apply in_long_iff, to_long_range.
Qed.

Lemma fold_accumulate_in_long (l : list attempt) :
  forall total,
    in_long (tv_nsec total) = true ->
    in_long (tv_nsec (fold_left accumulate l total)) = true.
Proof.
  induction l as [| a l IH]; intros total H; [exact H |].
  simpl. apply IH, accumulate_in_long.
Qed.

(** The whole initiator: with [BENCH_SIZE] successes in the trace it leaves
    the loop, and unless [ts_total.tv_sec * 1000000000] overflows it prints
    its three lines and returns. *)
Lemma thread1_fn_reports (t2 : Z) (mr : l4_msg_regs_t) (tr : list attempt) :
  BENCH_SIZE <= Z.of_nat (length (successes tr)) ->
  exists consumed rest evs v,
    tr = consumed ++ rest /\
    Z.of_nat (length (successes consumed)) = BENCH_SIZE /\
    thread1_loop t2 BENCH_SIZE 0 (thread1_init mr) tr = (evs, Done (v, rest)) /\
    ts_total v = fold_left accumulate (successes consumed)
                           {| tv_sec := 0; tv_nsec := 0 |} /\
    tsc_sum v = fold_left add_cycles consumed 0 /\
    (in_long (tv_sec (ts_total v) * 1000000000) = true ->
     thread1_fn t2 mr tr =
     (evs ++
      [printf "Total l4_ipc_call() time: %5lu.%09lus\n"
              [tv_sec (ts_total v); tv_nsec (ts_total v)];
       printf "AVG l4_ipc_call() time  : %5lu.%09lus\n"
              [Z.quot (tv_sec (ts_total v)) BENCH_SIZE;
               Z.quot (tv_nsec (ts_total v)) BENCH_SIZE];
       printf "AVG IPC Roundtrip cycles: %15llu\n" [tsc_sum v / BENCH_SIZE]],
      Done tt)).
Proof.
  intros H.
  destruct (thread1_loop_retries t2 BENCH_SIZE ltac:(unfold BENCH_SIZE; lia)
              tr 0 (thread1_init mr) ltac:(unfold BENCH_SIZE; lia) ltac:(lia))
    as (c & rest & evs & v & Htr & Hrun & Hc & _ & Ht & Hy & _).
  exists c, rest, evs, v. rewrite Z.sub_0_r in Hc.
  repeat split; try assumption.
  intros Hsec. unfold thread1_fn. rewrite Hrun. cbn [bind].
  rewrite report_fieldwise; [reflexivity | unfold BENCH_SIZE; lia | exact Hsec |].
  rewrite Ht. apply fold_accumulate_in_long. reflexivity.
Qed.

Lemma one_slow_trial_run :
  (let (evs, r) := thread1_fn 0 cleared one_slow_trial in
   (filter is_printf evs, r)) =
  ([printf "Total l4_ipc_call() time: %5lu.%09lus\n" [1; 1000000000];
    printf "AVG l4_ipc_call() time  : %5lu.%09lus\n" [0; 10000];
    printf "AVG IPC Roundtrip cycles: %15llu\n" [30000]],
   Done tt).
Proof. vm_compute. reflexivity. Qed.

(** C2.  The specification has the printed average be the whole duration in
    nanoseconds divided by [BENCH_SIZE].  Lines 83 and 84 divide the seconds
    and the nanoseconds of [ts_total] separately: the seconds that do not
    make up a whole multiple of [BENCH_SIZE] are lost, since
    [seconds_as_ns % 1000000000] is always zero.  With 1 s 0 ns accumulated
    the average is 10000 ns and the code prints 0 s 0 ns.  In the run
    [one_slow_trial] the trials take 2 s together, 20000 ns each on average;
    the code accumulates (1, 1000000000) and prints 0 s 10000 ns. *)
Theorem average_loses_remaining_seconds :
  report BENCH_SIZE {| ts_total := {| tv_sec := 1; tv_nsec := 0 |};
                       tsc_sum := 0; utcb_mr := cleared |} =
  ([printf "Total l4_ipc_call() time: %5lu.%09lus\n" [1; 0];
    printf "AVG l4_ipc_call() time  : %5lu.%09lus\n" [0; 0];
    printf "AVG IPC Roundtrip cycles: %15llu\n" [0]],
   Done tt) /\
  average_spec BENCH_SIZE {| tv_sec := 1; tv_nsec := 0 |} = (0, 10000) /\
  (let (evs, r) := thread1_fn 0 cleared one_slow_trial in
   (filter is_printf evs, r)) =
  ([printf "Total l4_ipc_call() time: %5lu.%09lus\n" [1; 1000000000];
    printf "AVG l4_ipc_call() time  : %5lu.%09lus\n" [0; 10000];
    printf "AVG IPC Roundtrip cycles: %15llu\n" [30000]],
   Done tt) /\
  average_spec BENCH_SIZE {| tv_sec := 1; tv_nsec := 1000000000 |} = (0, 20000).
Proof.
  split; [vm_compute; reflexivity |].
  split; [vm_compute; reflexivity |].
  split; [exact one_slow_trial_run |].
  vm_compute; reflexivity.
Qed.

(** ** The responder *)

Lemma thread2_body_done (w : wakeup) : snd (thread2_body w) = Done tt.
Proof. unfold thread2_body. destruct (negb (w_ipc_error w =? 0)); reflexivity. Qed.

Lemma thread2_loop_events (ws : list wakeup) :
  thread2_loop ws = (flat_map (fun w => fst (thread2_body w)) ws, Blocked).
Proof.
  induction ws as [| w ws IH]; [reflexivity |].
  simpl. rewrite IH.
  pose proof (thread2_body_done w) as Hd.
  destruct (thread2_body w) as [l r]. simpl in Hd. subst r. reflexivity.
Qed.

(** C7.  A wake-up with an error code other than zero is answered by a line
    on [stderr] and a plain [l4_ipc_wait] without timeout, and by no reply.
    A wake-up without error is answered by one [l4_ipc_reply_and_wait]
    without timeout whose tag announces exactly two words, with the seconds
    and nanoseconds of the clock in [mr[0]] and [mr[1]].  Whatever the
    sequence of wake-ups, the responder handles each of them in this way and
    is then suspended again: it never returns. *)
Theorem responder_protocol :
  (forall w, w_ipc_error w <> 0 ->
     thread2_body w =
     ([fprintf_stderr "thread2: IPC error: %x\n" [w_ipc_error w];
       l4_ipc_wait L4_IPC_NEVER], Done tt) /\
     filter is_reply (fst (thread2_body w)) = []) /\
  (forall w, w_ipc_error w = 0 ->
     thread2_body w =
     ([l4_ipc_reply_and_wait
         {| tag_label := 0; tag_words := 2; tag_items := 0; tag_flags := 0 |}
         {| mr_0 := to_ulong (tv_sec (w_tp w));
            mr_1 := to_ulong (tv_nsec (w_tp w)) |}
         L4_IPC_NEVER], Done tt) /\
     (valid_time (tv_sec (w_tp w)) (tv_nsec (w_tp w)) ->
      to_ulong (tv_sec (w_tp w)) = tv_sec (w_tp w) /\
      to_ulong (tv_nsec (w_tp w)) = tv_nsec (w_tp w))) /\
  (forall ws,
     thread2_fn ws =
     (l4_ipc_wait L4_IPC_NEVER :: flat_map (fun w => fst (thread2_body w)) ws,
      Blocked) /\
     forall r, snd (thread2_fn ws) <> Done r).
Proof.
  split; [| split].
  - intros w Hw. unfold thread2_body.
    destruct (Z.eqb_spec (w_ipc_error w) 0); [contradiction |]. split; reflexivity.
  - intros w Hw. unfold thread2_body. rewrite Hw. split; [reflexivity |].
    unfold valid_time, LONG_MAX. intros [Hs Hn].
    split; apply to_ulong_small; lia.
  - intros ws. unfold thread2_fn. rewrite thread2_loop_events.
    split; [reflexivity |]. intros r. simpl. discriminate.
Qed.

Lemma responder_protocol_witness :
  let bad := {| w_ipc_error := 2; w_tp := {| tv_sec := 10; tv_nsec := 5 |} |} in
  let good := {| w_ipc_error := 0; w_tp := {| tv_sec := 11; tv_nsec := 250 |} |} in
  thread2_fn [bad; good] =
  ([l4_ipc_wait L4_IPC_NEVER;
    fprintf_stderr "thread2: IPC error: %x\n" [2];
    l4_ipc_wait L4_IPC_NEVER;
    l4_ipc_reply_and_wait (l4_msgtag 0 2 0 0) {| mr_0 := 11; mr_1 := 250 |}
                          L4_IPC_NEVER],
   Blocked).
Proof.
  intros bad good.
  destruct responder_protocol as (Hbad & Hgood & Hrun).
  destruct (Hrun [bad; good]) as [-> _].
  destruct (Hbad bad) as [Hb _]; [simpl; lia |].
  destruct (Hgood good) as [Hg Hv]; [reflexivity |].
  destruct Hv as [Hs Hn]; [unfold valid_time, LONG_MAX; simpl; lia |].
  cbn [flat_map]. rewrite Hb, Hg. cbn [fst app]. rewrite Hs, Hn. reflexivity.
Defined.

(** ** The bootstrap *)

Lemma main_creation_failed (rc t2 l4err : Z) (mr : l4_msg_regs_t)
      (tr : list attempt) :
  rc <> 0 ->
  main rc t2 l4err mr tr =
  ([fprintf_stderr "Thread creation failed\n" []], Done 1).
Proof.
  intros H. unfold main. destruct (Z.eqb_spec rc 0); [contradiction | reflexivity].
Qed.

(** Once the responder exists, [main] submits the placement request, prints
    one or two lines and becomes the initiator. *)
Lemma main_created (t2 l4err : Z) (mr : l4_msg_regs_t) (tr : list attempt) :
  main 0 t2 l4err mr tr =
  (run_thread t2 placement ::
   (if negb (l4err =? 0)
    then [printf "Error migrating thread %p to CPU: %02d\n" [t2; 1]]
    else []) ++
   printf "Migrated Thread %p -> CPU: %02d\n" [t2; 1] ::
   fst (thread1_fn t2 mr tr),
   match snd (thread1_fn t2 mr tr) with
   | Done _ => Done 0
   | Blocked => Blocked
   | Undefined => Undefined
   end).
Proof.
  unfold main. cbn [Z.eqb negb]. fold placement.
  destruct (thread1_fn t2 mr tr) as [evs [[] | |]];
    destruct (negb (l4err =? 0)); cbn; rewrite ?app_nil_r; reflexivity.
Qed.

(** C8.  When the scheduler refuses the placement (priority 20, CPU 1),
    [main] prints the error line and then runs [thread1_fn] all the same:
    whenever the initiator completes, [main] returns 0 and the initiator's
    report follows the two placement lines.  When [pthread_create] fails,
    [main] writes one line to [stderr] and returns 1 at once. *)
Theorem placement_failure_not_fatal
        (t2 l4err : Z) (mr : l4_msg_regs_t) (tr : list attempt) :
  l4err <> 0 ->
  main 0 t2 l4err mr tr =
    (run_thread t2 {| prio := 20; affinity_offset := 1;
                      affinity_granularity := 0 |} ::
     printf "Error migrating thread %p to CPU: %02d\n" [t2; 1] ::
     printf "Migrated Thread %p -> CPU: %02d\n" [t2; 1] ::
     fst (thread1_fn t2 mr tr),
     match snd (thread1_fn t2 mr tr) with
     | Done _ => Done 0
     | Blocked => Blocked
     | Undefined => Undefined
     end) /\
  (snd (thread1_fn t2 mr tr) = Done tt ->
   snd (main 0 t2 l4err mr tr) = Done 0 /\
   filter is_printf (fst (main 0 t2 l4err mr tr)) =
     printf "Error migrating thread %p to CPU: %02d\n" [t2; 1] ::
     printf "Migrated Thread %p -> CPU: %02d\n" [t2; 1] ::
     filter is_printf (fst (thread1_fn t2 mr tr))) /\
  (forall rc, rc <> 0 ->
     main rc t2 l4err mr tr =
     ([fprintf_stderr "Thread creation failed\n" []], Done 1)).
Proof.
  intros H. rewrite main_created.
  destruct (Z.eqb_spec l4err 0); [contradiction |]. cbn [negb app fst snd].
  split; [reflexivity |]. split.
  - intros ->. split; reflexivity.
  - intros rc Hrc. apply main_creation_failed, Hrc.
Qed.

Lemma placement_failure_not_fatal_witness :
  snd (main 0 0 (-1) cleared one_slow_trial) = Done 0 /\
  filter is_printf (fst (main 0 0 (-1) cleared one_slow_trial)) =
    [printf "Error migrating thread %p to CPU: %02d\n" [0; 1];
     printf "Migrated Thread %p -> CPU: %02d\n" [0; 1];
     printf "Total l4_ipc_call() time: %5lu.%09lus\n" [1; 1000000000];
     printf "AVG l4_ipc_call() time  : %5lu.%09lus\n" [0; 10000];
     printf "AVG IPC Roundtrip cycles: %15llu\n" [30000]] /\
  main 12 0 (-1) cleared one_slow_trial =
    ([fprintf_stderr "Thread creation failed\n" []], Done 1).
Proof.
  pose proof one_slow_trial_run as Hrun.
  destruct (thread1_fn 0 cleared one_slow_trial) as [evs r] eqn:Hfn.
  injection Hrun as Hevs Hr.
  destruct (placement_failure_not_fatal 0 (-1) cleared one_slow_trial)
    as (_ & Hdone & Hcreate); [lia |].
  rewrite Hfn in Hdone. destruct (Hdone Hr) as [Hexit Hlines].
  split; [exact Hexit |]. split.
  - rewrite Hlines. cbn [fst]. rewrite Hevs. reflexivity.
  - apply Hcreate. lia.
Defined.

(** C10.  After a successful [pthread_create], the line "Migrated Thread"
    is printed whatever the scheduler answered.  When the placement failed
    it comes right after the error line; so its presence says nothing about
    where the responder runs. *)
Theorem migrated_line_unconditional
        (t2 l4err : Z) (mr : l4_msg_regs_t) (tr : list attempt) :
  In (printf "Migrated Thread %p -> CPU: %02d\n" [t2; 1])
     (fst (main 0 t2 l4err mr tr)) /\
  (l4err <> 0 ->
   fst (main 0 t2 l4err mr tr) =
     run_thread t2 placement ::
     printf "Error migrating thread %p to CPU: %02d\n" [t2; 1] ::
     printf "Migrated Thread %p -> CPU: %02d\n" [t2; 1] ::
     fst (thread1_fn t2 mr tr)) /\
  (l4err = 0 ->
   fst (main 0 t2 l4err mr tr) =
     run_thread t2 placement ::
     printf "Migrated Thread %p -> CPU: %02d\n" [t2; 1] ::
     fst (thread1_fn t2 mr tr)).
Proof.
  rewrite main_created. cbn [fst].
  destruct (Z.eqb_spec l4err 0) as [He | Hne]; cbn [negb app].
  - split; [simpl; auto |]. split; [contradiction | reflexivity].
  - split; [simpl; auto |]. split; [reflexivity | contradiction].
Qed.

Lemma migrated_line_unconditional_witness :
  fst (main 0 4 (-22) cleared []) =
    [run_thread 4 placement;
     printf "Error migrating thread %p to CPU: %02d\n" [4; 1];
     printf "Migrated Thread %p -> CPU: %02d\n" [4; 1]] /\
  fst (main 0 4 0 cleared []) =
    [run_thread 4 placement;
     printf "Migrated Thread %p -> CPU: %02d\n" [4; 1]].
Proof.
  split.
  - destruct (migrated_line_unconditional 4 (-22) cleared []) as (_ & H & _).
    rewrite H by lia. reflexivity.
  - destruct (migrated_line_unconditional 4 0 cleared []) as (_ & _ & H).
    rewrite H by reflexivity. reflexivity.
Defined.

(** * Further properties *)

(** ** What the initiator's loop shows to the outside *)

Lemma attempt_events_failed (t2 : Z) (a : attempt) :
  failed a = true ->
  attempt_events t2 a =
  [l4_ipc_call t2 (l4_msgtag 0 0 0 0) L4_IPC_NEVER;
   fprintf_stderr "thread1: IPC error: %x\n" [ipc_error a]].
Proof. intros H. unfold attempt_events. rewrite H. reflexivity. Qed.

Lemma attempt_events_succeeded (t2 : Z) (a : attempt) :
  failed a = false ->
  attempt_events t2 a = [l4_ipc_call t2 (l4_msgtag 0 0 0 0) L4_IPC_NEVER].
Proof. intros H. unfold attempt_events. rewrite H. reflexivity. Qed.

Lemma filter_printf_attempt_events (t2 : Z) (tr : list attempt) :
  filter is_printf (flat_map (attempt_events t2) tr) = [].
Proof.
  induction tr as [| a tr IH]; [reflexivity |].
  simpl. destruct (failed a); simpl; exact IH.
Qed.

Lemma filter_call_attempt_events (t2 : Z) (tr : list attempt) :
  length (filter is_call (flat_map (attempt_events t2) tr)) = length tr.
Proof.
  induction tr as [| a tr IH]; [reflexivity |].
  simpl. destruct (failed a); simpl; rewrite IH; reflexivity.
Qed.

Lemma filter_stderr_attempt_events (t2 : Z) (tr : list attempt) :
  filter is_stderr (flat_map (attempt_events t2) tr) =
  map (fun a => fprintf_stderr "thread1: IPC error: %x\n" [ipc_error a])
      (failures tr).
Proof.
  induction tr as [| a tr IH]; [reflexivity |].
  unfold failures in *. simpl. destruct (failed a); simpl; rewrite IH; reflexivity.
Qed.

Lemma successes_failures_length (tr : list attempt) :
  (length tr = length (successes tr) + length (failures tr))%nat.
Proof.
  induction tr as [| a tr IH]; [reflexivity |].
  by_outcome a Hf Hs.
  - rewrite successes_cons_failed, failures_cons_failed by assumption. simpl. lia.
  - rewrite successes_cons_succeeded, failures_cons_succeeded by assumption. simpl. lia.
Qed.

(** [tsc_sum] in closed form: the plain sum of the cycle differences,
    reduced once. *)
Lemma fold_add_cycles (tr : list attempt) :
  forall s, fold_left add_cycles tr (s mod 2 ^ 64) = (s + cycles_spent tr) mod 2 ^ 64.
Proof.
  induction tr as [| a tr IH]; intros s.
  - simpl. rewrite Z.add_0_r. reflexivity.
  - simpl. unfold add_cycles at 2. rewrite !to_ullong_mod.
    rewrite <- Zplus_mod. rewrite IH. f_equal. lia.
Qed.

Section LoopTrace.

Variables t2 bench : Z.
Hypothesis bench_unsigned : 0 <= bench < 2 ^ 32.

(** As long as successes are missing the loop goes on calling. *)
Lemma thread1_loop_starved (tr : list attempt) :
  forall (i : Z) (v : thread1_vars),
    0 <= i ->
    Z.of_nat (length (successes tr)) < bench - i ->
    thread1_loop t2 bench i v tr = (flat_map (attempt_events t2) tr, Blocked).
Proof.
  induction tr as [| a tr IH]; intros i v Hi Hn.
  - simpl in *. destruct (Z.ltb_spec i bench); [reflexivity | lia].
  - assert (Hlt : i < bench) by lia.
    by_outcome a Hf Hs.
    + rewrite (thread1_loop_failed t2 bench bench_unsigned) by (lia || assumption).
      rewrite loop_body_failed by assumption. cbn [bind].
      rewrite successes_cons_failed in Hn by assumption.
      rewrite (IH i _ Hi Hn). cbn [flat_map].
      rewrite attempt_events_failed by assumption. reflexivity.
    + rewrite (thread1_loop_succeeded t2 bench bench_unsigned) by (lia || assumption).
      rewrite loop_body_succeeded by assumption. cbn [bind].
      rewrite successes_cons_succeeded in Hn by assumption. simpl length in Hn.
      rewrite (IH (i + 1)) by lia. cbn [flat_map].
      rewrite attempt_events_succeeded by assumption. reflexivity.
Qed.

(** When it returns, its events are those of the attempts it consumed. *)
Lemma thread1_loop_events (tr : list attempt) :
  forall (i : Z) (v v' : thread1_vars) (evs : list event) (rest : list attempt),
    0 <= i <= bench ->
    thread1_loop t2 bench i v tr = (evs, Done (v', rest)) ->
    exists consumed,
      tr = consumed ++ rest /\ evs = flat_map (attempt_events t2) consumed.
Proof.
  induction tr as [| a tr IH]; intros i v v' evs rest Hi Hrun.
  - simpl in Hrun. destruct (i <? bench); [discriminate |].
    injection Hrun as <- _ <-. exists []. split; reflexivity.
  - destruct (Z.eq_dec i bench) as [-> | Hne].
    { rewrite thread1_loop_exit in Hrun by lia.
      injection Hrun as <- _ <-. exists []. split; reflexivity. }
    by_outcome a Hf Hs.
    + rewrite (thread1_loop_failed t2 bench bench_unsigned) in Hrun by (lia || assumption).
      rewrite loop_body_failed in Hrun by assumption. cbn [bind] in Hrun.
      match type of Hrun with
      | context [thread1_loop t2 bench ?j ?w tr] =>
          destruct (thread1_loop t2 bench j w tr) as [l [[w' r] | |]] eqn:Hl;
          try discriminate; injection Hrun as <- <- <-;
          destruct (IH j w w' l r ltac:(lia) Hl) as (c & -> & ->)
      end.
      exists (a :: c). split; [reflexivity |].
      cbn [flat_map]. rewrite attempt_events_failed by assumption. reflexivity.
    + rewrite (thread1_loop_succeeded t2 bench bench_unsigned) in Hrun by (lia || assumption).
      rewrite loop_body_succeeded in Hrun by assumption. cbn [bind] in Hrun.
      match type of Hrun with
      | context [thread1_loop t2 bench ?j ?w tr] =>
          destruct (thread1_loop t2 bench j w tr) as [l [[w' r] | |]] eqn:Hl;
          try discriminate; injection Hrun as <- <- <-;
          destruct (IH j w w' l r ltac:(lia) Hl) as (c & -> & ->)
      end.
      exists (a :: c). split; [reflexivity |].
      cbn [flat_map]. rewrite attempt_events_succeeded by assumption. reflexivity.
Qed.

End LoopTrace.

Lemma bench_size_unsigned : 0 <= BENCH_SIZE < 2 ^ 32.
Proof. unfold BENCH_SIZE. lia. Qed.

(** X1.  The retry has no limit.  As long as the transport has let fewer
    than [BENCH_SIZE] calls succeed, however many have failed, the initiator
    has made one call per attempt, has reported each failure on [stderr],
    has printed nothing on [stdout] and has not returned: it is suspended in
    the next call. *)
Theorem no_retry_limit (t2 : Z) (mr : l4_msg_regs_t) (tr : list attempt) :
  Z.of_nat (length (successes tr)) < BENCH_SIZE ->
  thread1_fn t2 mr tr = (flat_map (attempt_events t2) tr, Blocked) /\
  length (filter is_call (fst (thread1_fn t2 mr tr))) = length tr /\
  filter is_stderr (fst (thread1_fn t2 mr tr)) =
    map (fun a => fprintf_stderr "thread1: IPC error: %x\n" [ipc_error a])
        (failures tr) /\
  filter is_printf (fst (thread1_fn t2 mr tr)) = [].
Proof.
  intros H.
  assert (Hrun : thread1_fn t2 mr tr = (flat_map (attempt_events t2) tr, Blocked)).
  { unfold thread1_fn.
    rewrite (thread1_loop_starved t2 BENCH_SIZE bench_size_unsigned) by lia.
    reflexivity. }
  rewrite Hrun. cbn [fst].
  repeat split.
  - apply filter_call_attempt_events.
  - apply filter_stderr_attempt_events.
  - apply filter_printf_attempt_events.
Qed.

Lemma no_retry_limit_witness :
  let bad := {| tp := {| tv_sec := 1; tv_nsec := 0 |};
                tsc_start := 0; tsc_end := 500; ipc_error := 3;
                reply := {| mr_0 := 0; mr_1 := 0 |} |} in
  let tr := repeat bad (Z.to_nat (3 * BENCH_SIZE)) in
  snd (thread1_fn 7 cleared tr) = Blocked /\
  length (filter is_call (fst (thread1_fn 7 cleared tr))) = length tr /\
  filter is_printf (fst (thread1_fn 7 cleared tr)) = [].
Proof.
  intros bad tr.
  destruct (no_retry_limit 7 cleared tr) as (Hrun & Hcalls & _ & Hout).
  - apply Z.ltb_lt. vm_compute. reflexivity.
  - rewrite Hrun at 1. auto.
Defined.

(** X2.  What the loop shows to the outside when it returns: one call for
    each attempt it made and, right after each failed call, one line on
    [stderr] that carries that call's error code; nothing on [stdout].  The
    number of calls is [BENCH_SIZE] plus the number of failures. *)
Theorem calls_and_error_lines (t2 : Z) (mr : l4_msg_regs_t) (tr : list attempt) :
  BENCH_SIZE <= Z.of_nat (length (successes tr)) ->
  exists consumed rest v,
    tr = consumed ++ rest /\
    thread1_loop t2 BENCH_SIZE 0 (thread1_init mr) tr =
      (flat_map (attempt_events t2) consumed, Done (v, rest)) /\
    filter is_stderr (flat_map (attempt_events t2) consumed) =
      map (fun a => fprintf_stderr "thread1: IPC error: %x\n" [ipc_error a])
          (failures consumed) /\
    filter is_printf (flat_map (attempt_events t2) consumed) = [] /\
    Z.of_nat (length consumed) =
      BENCH_SIZE + Z.of_nat (length (failures consumed)).
Proof.
  intros H.
  destruct (thread1_loop_retries t2 BENCH_SIZE bench_size_unsigned
              tr 0 (thread1_init mr) ltac:(unfold BENCH_SIZE; lia) ltac:(lia))
    as (c & rest & evs & v & Htr & Hrun & Hc & _).
  destruct (thread1_loop_events t2 BENCH_SIZE bench_size_unsigned
              tr 0 (thread1_init mr) v evs rest ltac:(unfold BENCH_SIZE; lia) Hrun)
    as (c' & Htr' & Hevs).
  assert (c' = c) by (apply (app_inv_tail rest); congruence). subst c'.
  exists c, rest, v. rewrite Hrun, Hevs.
  split; [exact Htr |]. split; [reflexivity |].
  split; [apply filter_stderr_attempt_events |].
  split; [apply filter_printf_attempt_events |].
  rewrite (successes_failures_length c). lia.
Qed.

Lemma calls_and_error_lines_witness :
  let bad := {| tp := {| tv_sec := 1; tv_nsec := 0 |};
                tsc_start := 0; tsc_end := 500; ipc_error := 3;
                reply := {| mr_0 := 0; mr_1 := 0 |} |} in
  let good := {| tp := {| tv_sec := 1; tv_nsec := 0 |};
                 tsc_start := 0; tsc_end := 90; ipc_error := 0;
                 reply := {| mr_0 := 1; mr_1 := 4000 |} |} in
  let tr := bad :: repeat good (Z.to_nat BENCH_SIZE) ++ [bad] in
  exists consumed rest v,
    tr = consumed ++ rest /\
    thread1_loop 7 BENCH_SIZE 0 (thread1_init cleared) tr =
      (flat_map (attempt_events 7) consumed, Done (v, rest)) /\
    Z.of_nat (length consumed) =
      BENCH_SIZE + Z.of_nat (length (failures consumed)).
Proof.
  intros bad good tr.
  destruct (calls_and_error_lines 7 cleared tr) as (c & rest & v & Htr & Hrun & _ & _ & Hlen).
  - apply Z.leb_le. vm_compute. reflexivity.
  - exists c, rest, v. auto.
Defined.

(** X3.  What the initiator prints.  With [BENCH_SIZE] successes in the
    trace, and unless the multiplication in line 80 overflows, [thread1_fn]
    returns and its [stdout] is three lines: the two fields of [ts_total]
    as accumulated over the successful attempts; each of them divided by
    [BENCH_SIZE]; and the cycles of all attempts, the failed ones included,
    reduced modulo [2^64] and divided by [BENCH_SIZE], not by the number of
    attempts. *)
Theorem initiator_output (t2 : Z) (mr : l4_msg_regs_t) (tr : list attempt) :
  BENCH_SIZE <= Z.of_nat (length (successes tr)) ->
  exists consumed rest total,
    tr = consumed ++ rest /\
    Z.of_nat (length (successes consumed)) = BENCH_SIZE /\
    total = fold_left accumulate (successes consumed)
                      {| tv_sec := 0; tv_nsec := 0 |} /\
    (in_long (tv_sec total * 1000000000) = true ->
     snd (thread1_fn t2 mr tr) = Done tt /\
     filter is_printf (fst (thread1_fn t2 mr tr)) =
     [printf "Total l4_ipc_call() time: %5lu.%09lus\n"
             [tv_sec total; tv_nsec total];
      printf "AVG l4_ipc_call() time  : %5lu.%09lus\n"
             [Z.quot (tv_sec total) BENCH_SIZE;
              Z.quot (tv_nsec total) BENCH_SIZE];
      printf "AVG IPC Roundtrip cycles: %15llu\n"
             [(cycles_spent consumed mod 2 ^ 64) / BENCH_SIZE]]).
Proof.
  intros H.
  destruct (thread1_fn_reports t2 mr tr H)
    as (c & rest & evs & v & Htr & Hc & Hrun & Ht & Hy & Hfn).
  destruct (thread1_loop_events t2 BENCH_SIZE bench_size_unsigned
              tr 0 (thread1_init mr) v evs rest ltac:(unfold BENCH_SIZE; lia) Hrun)
    as (c' & Htr' & Hevs).
  exists c, rest, (ts_total v).
  split; [exact Htr |]. split; [exact Hc |]. split; [exact Ht |].
  intros Hsec. rewrite (Hfn Hsec). cbn [fst snd]. split; [reflexivity |].
  rewrite filter_app, Hevs, filter_printf_attempt_events. cbn [app filter is_printf].
  rewrite Hy. change 0 with (0 mod 2 ^ 64) at 1. rewrite fold_add_cycles.
  reflexivity.
Qed.

Lemma initiator_output_witness :
  let bad := {| tp := {| tv_sec := 1; tv_nsec := 0 |};
                tsc_start := 0; tsc_end := 500; ipc_error := 3;
                reply := {| mr_0 := 0; mr_1 := 0 |} |} in
  let good := {| tp := {| tv_sec := 1; tv_nsec := 0 |};
                 tsc_start := 0; tsc_end := 90; ipc_error := 0;
                 reply := {| mr_0 := 1; mr_1 := 4000 |} |} in
  let tr := bad :: repeat good (Z.to_nat BENCH_SIZE) in
  exists consumed rest total,
    tr = consumed ++ rest /\
    Z.of_nat (length (successes consumed)) = BENCH_SIZE /\
    total = fold_left accumulate (successes consumed)
                      {| tv_sec := 0; tv_nsec := 0 |}.
Proof.
  intros bad good tr.
  destruct (initiator_output 7 cleared tr) as (c & rest & total & Htr & Hc & Ht & _).
  - apply Z.leb_le. vm_compute. reflexivity.
  - exists c, rest, total. auto.
Defined.

(** ** The accumulators in closed form *)

Lemma to_long_congr (x y : Z) :
  x mod 2 ^ 64 = y mod 2 ^ 64 -> to_long x = to_long y.
Proof. intros H. rewrite !to_long_mod, H. reflexivity. Qed.

Lemma to_long_mod_same (x : Z) : to_long x mod 2 ^ 64 = x mod 2 ^ 64.
Proof.
  rewrite to_long_mod.
  pose proof (Z.mod_pos_bound x (2 ^ 64) ltac:(lia)) as Hb.
  destruct (Z.ltb_spec (x mod 2 ^ 64) (2 ^ 63)).
  - apply Z.mod_mod. lia.
  - replace (x mod 2 ^ 64 - 2 ^ 64) with (x mod 2 ^ 64 + (-1) * 2 ^ 64) by lia.
    rewrite Z.mod_add by lia. apply Z.mod_mod. lia.
Qed.

Lemma to_long_add_ulong (s d : Z) : to_long (to_ulong s + d) = to_long (s + d).
Proof.
  apply to_long_congr. rewrite to_ulong_mod. apply Zplus_mod_idemp_l.
Qed.

Lemma to_long_add_long (x d : Z) : to_long (to_long x + d) = to_long (x + d).
Proof.
  apply to_long_congr.
  rewrite <- Zplus_mod_idemp_l, to_long_mod_same, Zplus_mod_idemp_l. reflexivity.
Qed.

Lemma accumulate_fields (total : timespec) (a : attempt) :
  accumulate total a =
  {| tv_sec := to_long (tv_sec total + fst (elapsed (tp a) (reply a)));
     tv_nsec := to_long (tv_nsec total + snd (elapsed (tp a) (reply a))) |}.
Proof.
  unfold accumulate. destruct (elapsed (tp a) (reply a)) as [dsec dnsec].
  rewrite !to_long_add_ulong. reflexivity.
Qed.

(** Two additions to [ts_total] commute, wrap or not. *)
Lemma accumulate_comm (total : timespec) (a b : attempt) :
  accumulate (accumulate total a) b = accumulate (accumulate total b) a.
Proof.
  rewrite !accumulate_fields. cbn [tv_sec tv_nsec].
  rewrite !to_long_add_long. f_equal; f_equal; lia.
Qed.

Lemma fold_accumulate_permutation (l l' : list attempt) :
  Permutation l l' ->
  forall total, fold_left accumulate l total = fold_left accumulate l' total.
Proof.
  induction 1 as [| x l l' _ IH | x y l | l l' l'' _ IH1 _ IH2]; intros total.
  - reflexivity.
  - simpl. apply IH.
  - simpl. rewrite accumulate_comm. reflexivity.
  - rewrite IH1. apply IH2.
Qed.

Lemma successes_permutation (l l' : list attempt) :
  Permutation l l' -> Permutation (successes l) (successes l').
Proof.
  unfold successes.
  induction 1 as [| x l l' _ IH | x y l | l l' l'' _ IH1 _ IH2]; simpl.
  - constructor.
  - destruct (succeeded x); [constructor |]; exact IH.
  - destruct (succeeded x), (succeeded y);
      try apply Permutation_refl; apply perm_swap.
  - eapply Permutation_trans; eassumption.
Qed.

Lemma successes_app (l l' : list attempt) :
  successes (l ++ l') = successes l ++ successes l'.
Proof. unfold successes. apply filter_app. Qed.

(** X4.  The accumulated time does not depend on the order in which the
    transport delivers its outcomes: two traces with [BENCH_SIZE] successes
    each that are permutations of one another leave the same [ts_total],
    also where an addition wraps. *)
Theorem total_time_order_independent
        (t2 : Z) (mr : l4_msg_regs_t) (tr tr' : list attempt) :
  Z.of_nat (length (successes tr)) = BENCH_SIZE ->
  Permutation tr tr' ->
  exists evs evs' v v' rest rest',
    thread1_loop t2 BENCH_SIZE 0 (thread1_init mr) tr = (evs, Done (v, rest)) /\
    thread1_loop t2 BENCH_SIZE 0 (thread1_init mr) tr' = (evs', Done (v', rest')) /\
    ts_total v = ts_total v'.
Proof.
  intros Hn Hp.
  pose proof (successes_permutation _ _ Hp) as Hps.
  assert (Hn' : Z.of_nat (length (successes tr')) = BENCH_SIZE).
  { rewrite <- (Permutation_length Hps). exact Hn. }
  assert (Hall : forall l,
             Z.of_nat (length (successes l)) = BENCH_SIZE ->
             exists evs v rest,
               thread1_loop t2 BENCH_SIZE 0 (thread1_init mr) l = (evs, Done (v, rest)) /\
               ts_total v = fold_left accumulate (successes l)
                                      {| tv_sec := 0; tv_nsec := 0 |}).
  { intros l Hl.
    destruct (thread1_loop_retries t2 BENCH_SIZE bench_size_unsigned
                l 0 (thread1_init mr) ltac:(unfold BENCH_SIZE; lia) ltac:(lia))
      as (c & rest & evs & v & Htr & Hrun & Hc & _ & Ht & _).
    exists evs, v, rest. split; [exact Hrun |]. rewrite Ht.
    assert (Hrest : successes rest = []).
    { apply length_zero_iff_nil.
      rewrite Htr, successes_app, length_app in Hl. lia. }
    rewrite Htr, successes_app, Hrest, app_nil_r. reflexivity. }
  destruct (Hall tr Hn) as (evs & v & rest & Hrun & Ht).
  destruct (Hall tr' Hn') as (evs' & v' & rest' & Hrun' & Ht').
  exists evs, evs', v, v', rest, rest'.
  split; [exact Hrun |]. split; [exact Hrun' |].
  rewrite Ht, Ht'. apply fold_accumulate_permutation, Hps.
Qed.

Lemma total_time_order_independent_witness :
  let bad := {| tp := {| tv_sec := 1; tv_nsec := 0 |};
                tsc_start := 0; tsc_end := 500; ipc_error := 3;
                reply := {| mr_0 := 0; mr_1 := 0 |} |} in
  let slow := {| tp := {| tv_sec := 1; tv_nsec := 900 |};
                 tsc_start := 0; tsc_end := 90; ipc_error := 0;
                 reply := {| mr_0 := 3; mr_1 := 100 |} |} in
  let good := {| tp := {| tv_sec := 5; tv_nsec := 0 |};
                 tsc_start := 0; tsc_end := 90; ipc_error := 0;
                 reply := {| mr_0 := 5; mr_1 := 4000 |} |} in
  let tail := repeat good (Z.to_nat (BENCH_SIZE - 1)) in
  exists evs evs' v v' rest rest',
    thread1_loop 7 BENCH_SIZE 0 (thread1_init cleared) (bad :: slow :: tail) =
      (evs, Done (v, rest)) /\
    thread1_loop 7 BENCH_SIZE 0 (thread1_init cleared) (slow :: bad :: tail) =
      (evs', Done (v', rest')) /\
    ts_total v = ts_total v'.
Proof.
  intros bad slow good tail.
  apply (total_time_order_independent 7 cleared).
  - vm_compute. reflexivity.
  - apply perm_swap.
Defined.

(** ** Bounds *)

Lemma sane_succeeded (a : attempt) :
  sane a = true -> succeeded a = true ->
  valid_time (tv_sec (tp a)) (tv_nsec (tp a)) /\
  valid_time (mr_0 (reply a)) (mr_1 (reply a)) /\
  time_le (tv_sec (tp a)) (tv_nsec (tp a)) (mr_0 (reply a)) (mr_1 (reply a)).
Proof.
  unfold sane, valid_time, time_le. intros H Hs.
  by_outcome a Hf Hs'; [congruence |]. rewrite Hf in H. cbn [orb] in H.
  repeat match type of H with
         | _ && _ = true => apply andb_true_iff in H; destruct H as [H ?]
         end.
  repeat match goal with
         | H : (_ <=? _) = true |- _ => apply Z.leb_le in H
         | H : (_ <? _) = true |- _ => apply Z.ltb_lt in H
         end.
  repeat split; try assumption.
  match goal with
  | H : _ || _ = true |- _ =>
      apply orb_true_iff in H; destruct H as [H | H];
      [apply Z.ltb_lt in H; left; exact H
      | apply andb_true_iff in H; destruct H as [Hsame Hlater];
        apply Z.eqb_eq in Hsame; apply Z.leb_le in Hlater; right; split; assumption]
  end.
Qed.

(** One successful trial between valid clock readings adds less than a
    second to the nanosecond field. *)
Lemma accumulate_nsec_bound (total : timespec) (a : attempt) :
  sane a = true -> succeeded a = true ->
  0 <= tv_nsec total -> tv_nsec total + 999999999 < 2 ^ 63 ->
  tv_nsec total <= tv_nsec (accumulate total a) <= tv_nsec total + 999999999.
Proof.
  intros Hsane Hs H0 Hfit.
  destruct (sane_succeeded a Hsane Hs) as (Hv & Hv' & Hle).
  rewrite accumulate_fields, (elapsed_of_valid _ _ Hv Hv' Hle). cbn [tv_nsec].
  unfold valid_time in *.
  destruct (Z.ltb_spec (mr_1 (reply a)) (tv_nsec (tp a))); cbn [snd];
    rewrite to_long_small by lia; lia.
Qed.

Lemma fold_accumulate_nsec_bound (l : list attempt) :
  forall total,
    Forall (fun a => sane a = true /\ succeeded a = true) l ->
    0 <= tv_nsec total ->
    tv_nsec total + 999999999 * Z.of_nat (length l) < 2 ^ 63 ->
    tv_nsec total <= tv_nsec (fold_left accumulate l total)
      <= tv_nsec total + 999999999 * Z.of_nat (length l).
Proof.
  induction l as [| a l IH]; intros total Hall H0 Hfit.
  - simpl. lia.
  - inversion Hall as [| ? ? [Hsane Hs] Hall']; subst.
    cbn [length] in Hfit. rewrite Nat2Z.inj_succ in Hfit.
    pose proof (accumulate_nsec_bound total a Hsane Hs H0 ltac:(lia)) as Hstep.
    cbn [fold_left length]. rewrite Nat2Z.inj_succ.
    specialize (IH (accumulate total a) Hall' ltac:(lia) ltac:(lia)). lia.
Qed.

(** X5.  With valid clock readings (the reply not before the send) the
    nanosecond field of [ts_total] never wraps and is never reduced: it
    grows by less than a second per successful trial and ends between 0 and
    [999999999 * BENCH_SIZE], so it can pass one second; the nanosecond
    field of the printed average, [tv_nsec / BENCH_SIZE], stays below
    [10^9]. *)
Theorem nanoseconds_bounded (t2 : Z) (mr : l4_msg_regs_t) (tr : list attempt) :
  BENCH_SIZE <= Z.of_nat (length (successes tr)) ->
  forallb sane tr = true ->
  exists evs v rest,
    thread1_loop t2 BENCH_SIZE 0 (thread1_init mr) tr = (evs, Done (v, rest)) /\
    0 <= tv_nsec (ts_total v) <= 999999999 * BENCH_SIZE /\
    0 <= Z.quot (tv_nsec (ts_total v)) BENCH_SIZE < 1000000000.
Proof.
  intros H Hsane.
  destruct (thread1_loop_retries t2 BENCH_SIZE bench_size_unsigned
              tr 0 (thread1_init mr) ltac:(unfold BENCH_SIZE; lia) ltac:(lia))
    as (c & rest & evs & v & Htr & Hrun & Hc & _ & Ht & _).
  exists evs, v, rest. split; [exact Hrun |].
  assert (Hall : Forall (fun a => sane a = true /\ succeeded a = true) (successes c)).
  { apply Forall_forall. intros a Ha. apply filter_In in Ha. destruct Ha as [Ha Hs].
    split; [| exact Hs].
    rewrite forallb_forall in Hsane. apply Hsane. rewrite Htr. apply in_or_app. auto. }
  pose proof (fold_accumulate_nsec_bound (successes c) (ts_total (thread1_init mr))
                Hall ltac:(simpl; lia)) as Hb.
  rewrite <- Ht in Hb. cbn [tv_nsec ts_total thread1_init] in Hb.
  rewrite Z.sub_0_r in Hc. rewrite Hc in Hb.
  specialize (Hb ltac:(unfold BENCH_SIZE; lia)).
  split; [lia |]. unfold BENCH_SIZE in *.
  split; [apply Z.quot_pos; lia | apply Z.quot_lt_upper_bound; lia].
Qed.

Lemma nanoseconds_bounded_witness :
  exists evs v rest,
    thread1_loop 7 BENCH_SIZE 0 (thread1_init cleared) one_slow_trial =
      (evs, Done (v, rest)) /\
    0 <= tv_nsec (ts_total v) <= 999999999 * BENCH_SIZE /\
    0 <= Z.quot (tv_nsec (ts_total v)) BENCH_SIZE < 1000000000.
Proof.
  apply (nanoseconds_bounded 7 cleared one_slow_trial).
  - apply Z.leb_le. vm_compute. reflexivity.
  - vm_compute. reflexivity.
Defined.

(** X6.  Where the printed average is exact.  When the accumulated seconds
    are a whole multiple of the trial count (zero, when every trial stayed
    within its second) and the accumulated nanoseconds are non-negative and
    below one second per trial, the AVG line shows the average as the
    specification defines it: the whole duration in nanoseconds divided by
    the count, as seconds and nanoseconds. *)
Theorem average_exact_when_seconds_divide (bench k : Z) (v : thread1_vars) :
  0 < bench < 2 ^ 32 ->
  0 <= k ->
  tv_sec (ts_total v) = k * bench ->
  in_long (tv_sec (ts_total v) * 1000000000) = true ->
  0 <= tv_nsec (ts_total v) < bench * 1000000000 ->
  report bench v =
  ([printf "Total l4_ipc_call() time: %5lu.%09lus\n"
           [tv_sec (ts_total v); tv_nsec (ts_total v)];
    printf "AVG l4_ipc_call() time  : %5lu.%09lus\n"
           [fst (average_spec bench (ts_total v));
            snd (average_spec bench (ts_total v))];
    printf "AVG IPC Roundtrip cycles: %15llu\n" [tsc_sum v / bench]],
   Done tt).
Proof.
  intros Hb Hk Hsec Hfit Hn.
  rewrite report_fieldwise; [| lia | exact Hfit |].
  2:{ apply in_long_iff. unfold LONG_MIN, LONG_MAX. nia. }
  unfold average_spec. cbn [fst snd].
  set (n := tv_nsec (ts_total v)) in *. rewrite Hsec.
  assert (Hq : 0 <= n / bench < 1000000000).
  { split; [apply Z.div_pos; lia | apply Z.div_lt_upper_bound; lia]. }
  replace (k * bench * 1000000000 + n) with (k * 1000000000 * bench + n) by lia.
  rewrite Z.div_add_l by lia.
  rewrite Z.div_add_l by lia.
  rewrite (Z.div_small (n / bench)) by lia.
  rewrite Z.add_0_r.
  rewrite Z.add_comm, Z.mod_add by lia.
  rewrite (Z.mod_small (n / bench)) by lia.
  rewrite Z.quot_mul by lia.
  rewrite Z.quot_div_nonneg by lia.
  reflexivity.
Qed.

Lemma average_exact_when_seconds_divide_witness :
  let v := {| ts_total := {| tv_sec := 200000; tv_nsec := 1234500000 |};
              tsc_sum := 700000; utcb_mr := cleared |} in
  report BENCH_SIZE v =
  ([printf "Total l4_ipc_call() time: %5lu.%09lus\n" [200000; 1234500000];
    printf "AVG l4_ipc_call() time  : %5lu.%09lus\n" [2; 12345];
    printf "AVG IPC Roundtrip cycles: %15llu\n" [7]],
   Done tt).
Proof.
  intros v.
  rewrite (average_exact_when_seconds_divide BENCH_SIZE 2 v).
  - reflexivity.
  - unfold BENCH_SIZE. lia.
  - lia.
  - reflexivity.
  - reflexivity.
  - unfold BENCH_SIZE. simpl. lia.
Defined.

(** X7.  Line 80 multiplies the accumulated seconds by [1000000000] in
    [long].  The report is defined exactly when the seconds lie between
    -9223372036 and 9223372036; outside, the multiplication overflows before
    anything is printed. *)
Theorem report_defined_iff (bench : Z) (v : thread1_vars) :
  0 < bench ->
  in_long (tv_nsec (ts_total v)) = true ->
  (snd (report bench v) = Done tt <->
   -9223372036 <= tv_sec (ts_total v) <= 9223372036) /\
  (~ -9223372036 <= tv_sec (ts_total v) <= 9223372036 ->
   report bench v = ([], Undefined)).
Proof.
  intros Hb Hn.
  assert (Hout : ~ -9223372036 <= tv_sec (ts_total v) <= 9223372036 ->
                 report bench v = ([], Undefined)).
  { intros Hr. unfold report, smul, checked.
    destruct (in_long (tv_sec (ts_total v) * 1000000000)) eqn:Hin; [| reflexivity].
    apply in_long_iff in Hin. unfold LONG_MIN, LONG_MAX in Hin. lia. }
  split; [| exact Hout]. split.
  - intros Hd.
    destruct (Z_le_dec (-9223372036) (tv_sec (ts_total v)));
      destruct (Z_le_dec (tv_sec (ts_total v)) 9223372036); try lia;
      rewrite Hout in Hd by lia; discriminate.
  - intros Hr. rewrite report_fieldwise; [reflexivity | exact Hb | | exact Hn].
    apply in_long_iff. unfold LONG_MIN, LONG_MAX. lia.
Qed.

Lemma report_defined_iff_witness :
  let v := {| ts_total := {| tv_sec := 9223372037; tv_nsec := 5 |};
              tsc_sum := 0; utcb_mr := cleared |} in
  let v' := {| ts_total := {| tv_sec := 9223372036; tv_nsec := 5 |};
               tsc_sum := 0; utcb_mr := cleared |} in
  report BENCH_SIZE v = ([], Undefined) /\ snd (report BENCH_SIZE v') = Done tt.
Proof.
  intros v v'. split.
  - destruct (report_defined_iff BENCH_SIZE v) as [_ Hout];
      [unfold BENCH_SIZE; lia | reflexivity |].
    apply Hout. simpl. lia.
  - destruct (report_defined_iff BENCH_SIZE v') as [[_ Hin] _];
      [unfold BENCH_SIZE; lia | reflexivity |].
    apply Hin. simpl. lia.
Defined.

(** ** The responder's trace *)

Lemma thread2_body_answered (w : wakeup) :
  answered w = true ->
  fst (thread2_body w) =
  [l4_ipc_reply_and_wait (l4_msgtag 0 2 0 0)
     {| mr_0 := to_ulong (tv_sec (w_tp w)); mr_1 := to_ulong (tv_nsec (w_tp w)) |}
     L4_IPC_NEVER].
Proof. unfold answered, thread2_body. intros ->. reflexivity. Qed.

Lemma thread2_body_dropped (w : wakeup) :
  answered w = false ->
  fst (thread2_body w) =
  [fprintf_stderr "thread2: IPC error: %x\n" [w_ipc_error w];
   l4_ipc_wait L4_IPC_NEVER].
Proof. unfold answered, thread2_body. intros ->. reflexivity. Qed.

(** X8.  The responder over a whole sequence of wake-ups: it sends exactly
    one reply for each wake-up without error, in their order and with that
    wake-up's clock reading, and none for a wake-up with an error; it writes
    one [stderr] line per wake-up with an error; it prints nothing on
    [stdout], never issues a call, and has entered a blocking operation
    once more often than it was woken. *)
Theorem responder_trace (ws : list wakeup) :
  filter is_reply (fst (thread2_fn ws)) =
    map (fun w => l4_ipc_reply_and_wait (l4_msgtag 0 2 0 0)
                    {| mr_0 := to_ulong (tv_sec (w_tp w));
                       mr_1 := to_ulong (tv_nsec (w_tp w)) |}
                    L4_IPC_NEVER)
        (filter answered ws) /\
  filter is_stderr (fst (thread2_fn ws)) =
    map (fun w => fprintf_stderr "thread2: IPC error: %x\n" [w_ipc_error w])
        (filter dropped ws) /\
  filter is_printf (fst (thread2_fn ws)) = [] /\
  filter is_call (fst (thread2_fn ws)) = [] /\
  length (filter is_blocking (fst (thread2_fn ws))) = S (length ws).
Proof.
  unfold thread2_fn. rewrite thread2_loop_events. cbn [bind emit fst app].
  cbn [filter is_reply is_stderr is_printf is_call is_blocking length].
  induction ws as [| w ws (IH1 & IH2 & IH3 & IH4 & IH5)].
  - repeat split; reflexivity.
  - cbn [flat_map]. rewrite !filter_app. cbn [filter].
    unfold dropped in *. fold (answered w).
    destruct (answered w) eqn:Hw.
    + rewrite (thread2_body_answered w Hw). cbn.
      rewrite IH1, IH2, IH3, IH4. repeat split; try reflexivity.
      cbn in IH5. lia.
    + rewrite (thread2_body_dropped w Hw). cbn.
      rewrite IH1, IH2, IH3, IH4. repeat split; try reflexivity.
      cbn in IH5. lia.
Qed.

(** ** One round trip, both threads *)

(** X9.  One exchange end to end.  When the registers the initiator reads
    are those the responder put into its reply, they give back the
    responder's clock reading, and the loop body adds to [ts_total] the
    difference between the responder's clock and the initiator's send time:
    field by field when the nanoseconds need no borrow, and with
    [1000000000] more nanoseconds and one more second when they do. *)
Theorem round_trip_adds_clock_difference
        (t2 i : Z) (v : thread1_vars) (a : attempt) (w : wakeup)
        (tag : l4_msgtag_t) (mr : l4_msg_regs_t) (timeout : l4_timeout_t) :
  thread2_body w = ([l4_ipc_reply_and_wait tag mr timeout], Done tt) ->
  reply a = mr ->
  ipc_error a = 0 ->
  valid_time (tv_sec (tp a)) (tv_nsec (tp a)) ->
  valid_time (tv_sec (w_tp w)) (tv_nsec (w_tp w)) ->
  time_le (tv_sec (tp a)) (tv_nsec (tp a)) (tv_sec (w_tp w)) (tv_nsec (w_tp w)) ->
  tag_words tag = 2 /\
  to_long (mr_0 mr) = tv_sec (w_tp w) /\
  to_long (mr_1 mr) = tv_nsec (w_tp w) /\
  exists evs v',
    loop_body t2 i v a = (evs, Done (i, v')) /\
    ts_total v' =
      if tv_nsec (w_tp w) <? tv_nsec (tp a)
      then {| tv_sec := to_long (tv_sec (ts_total v)
                                 + (tv_sec (w_tp w) + 1 - tv_sec (tp a)));
              tv_nsec := to_long (tv_nsec (ts_total v)
                                  + (tv_nsec (w_tp w) + 1000000000
                                     - tv_nsec (tp a))) |}
      else {| tv_sec := to_long (tv_sec (ts_total v)
                                 + (tv_sec (w_tp w) - tv_sec (tp a)));
              tv_nsec := to_long (tv_nsec (ts_total v)
                                  + (tv_nsec (w_tp w) - tv_nsec (tp a))) |}.
Proof.
  intros Hbody Hreply Hok Hsend Hclock Hle.
  assert (Hmr : tag = l4_msgtag 0 2 0 0 /\
                mr = {| mr_0 := tv_sec (w_tp w); mr_1 := tv_nsec (w_tp w) |}).
  { unfold thread2_body in Hbody.
    destruct (negb (w_ipc_error w =? 0)); [discriminate |].
    injection Hbody as <- <- _.
    unfold valid_time, LONG_MAX in Hclock.
    rewrite !to_ulong_small by lia. split; reflexivity. }
  destruct Hmr as [-> ->].
  unfold valid_time, LONG_MAX in Hclock.
  split; [reflexivity |]. cbn [mr_0 mr_1].
  split; [apply to_long_small; lia |]. split; [apply to_long_small; lia |].
  rewrite loop_body_succeeded by (apply succeeded_iff; exact Hok).
  do 2 eexists. split; [reflexivity |]. cbn [ts_total].
  rewrite accumulate_fields, Hreply.
  pose proof (elapsed_of_valid (tp a)
                {| mr_0 := tv_sec (w_tp w); mr_1 := tv_nsec (w_tp w) |}
                Hsend ltac:(unfold valid_time, LONG_MAX; cbn; lia) Hle) as He.
  cbn [mr_0 mr_1] in He. rewrite He.
  destruct (tv_nsec (w_tp w) <? tv_nsec (tp a)); reflexivity.
Qed.

Lemma round_trip_adds_clock_difference_witness :
  let v := {| ts_total := {| tv_sec := 4; tv_nsec := 10 |};
              tsc_sum := 0; utcb_mr := cleared |} in
  let w := {| w_ipc_error := 0; w_tp := {| tv_sec := 12; tv_nsec := 3000 |} |} in
  let a := {| tp := {| tv_sec := 12; tv_nsec := 500 |};
              tsc_start := 0; tsc_end := 0; ipc_error := 0;
              reply := {| mr_0 := 12; mr_1 := 3000 |} |} in
  exists evs v',
    loop_body 7 0 v a = (evs, Done (0, v')) /\
    ts_total v' = {| tv_sec := 4; tv_nsec := 2510 |}.
Proof.
  intros v w a.
  destruct (round_trip_adds_clock_difference 7 0 v a w
              (l4_msgtag 0 2 0 0) {| mr_0 := 12; mr_1 := 3000 |} L4_IPC_NEVER)
    as (_ & _ & _ & evs & v' & Hrun & Ht).
  - reflexivity.
  - reflexivity.
  - reflexivity.
  - unfold valid_time, LONG_MAX. simpl. lia.
  - unfold valid_time, LONG_MAX. simpl. lia.
  - unfold time_le. simpl. lia.
  - exists evs, v'. split; [exact Hrun |]. rewrite Ht. reflexivity.
Defined.

(** ** The exit status *)

(** X10.  [main] returns 1 exactly when [pthread_create] failed, and 0
    exactly when it succeeded and the initiator returned; it returns nothing
    else.  What the scheduler answered has no part in it. *)
Theorem exit_status (rc t2 l4err : Z) (mr : l4_msg_regs_t) (tr : list attempt) :
  (snd (main rc t2 l4err mr tr) = Done 1 <-> rc <> 0) /\
  (snd (main rc t2 l4err mr tr) = Done 0 <->
   rc = 0 /\ snd (thread1_fn t2 mr tr) = Done tt) /\
  (forall n, snd (main rc t2 l4err mr tr) = Done n -> n = 0 \/ n = 1).
Proof.
  destruct (Z.eq_dec rc 0) as [-> | Hrc].
  - rewrite main_created. cbn [snd].
    destruct (snd (thread1_fn t2 mr tr)) as [[] | |].
    + split; [split; [discriminate | congruence] |].
      split; [split; auto |]. intros n H. injection H as <-. auto.
    + split; [split; [discriminate | congruence] |].
      split; [split; [discriminate | intros [_ H]; discriminate] |].
      intros n H. discriminate.
    + split; [split; [discriminate | congruence] |].
      split; [split; [discriminate | intros [_ H]; discriminate] |].
      intros n H. discriminate.
  - rewrite main_creation_failed by exact Hrc. cbn [snd].
    split; [split; auto |].
    split; [split; [discriminate | intros [H _]; contradiction] |].
    intros n H. injection H as <-. auto.
Qed.

(** ** A whole run against the specification's arithmetic *)

Lemma elapsed_against_spec (a : attempt) :
  sane a = true -> succeeded a = true ->
  elapsed (tp a) (reply a) =
    (fst (elapsed_spec (tp a) (reply a)) + (if borrowed a then 2 else 0),
     snd (elapsed_spec (tp a) (reply a))) /\
  0 <= fst (elapsed_spec (tp a) (reply a)) /\
  0 <= snd (elapsed_spec (tp a) (reply a)) <= 999999999.
Proof.
  intros Hsane Hs.
  destruct (sane_succeeded a Hsane Hs) as (Hv & Hv' & Hle).
  rewrite (elapsed_of_valid _ _ Hv Hv' Hle).
  unfold elapsed_spec, borrowed, valid_time, time_le in *.
  destruct (Z.ltb_spec (mr_1 (reply a)) (tv_nsec (tp a))); cbn [fst snd];
    (split; [f_equal; lia | lia]).
Qed.

Lemma spec_sums_nonneg (l : list attempt) :
  Forall (fun a => sane a = true /\ succeeded a = true) l ->
  0 <= spec_seconds l /\
  0 <= spec_nanoseconds l <= 999999999 * Z.of_nat (length l).
Proof.
  induction 1 as [| a l [Hsane Hs] _ IH].
  - simpl. lia.
  - destruct (elapsed_against_spec a Hsane Hs) as (_ & H1 & H2).
    cbn [spec_seconds spec_nanoseconds fold_right length].
    fold (spec_seconds l). fold (spec_nanoseconds l).
    rewrite Nat2Z.inj_succ. lia.
Qed.

Lemma borrowed_count_cons (a : attempt) (l : list attempt) :
  Z.of_nat (length (filter borrowed (a :: l))) =
  (if borrowed a then 1 else 0) + Z.of_nat (length (filter borrowed l)).
Proof.
  cbn [filter]. destruct (borrowed a); cbn [length]; lia.
Qed.

Lemma fold_accumulate_seconds (l : list attempt) :
  forall total,
    Forall (fun a => sane a = true /\ succeeded a = true) l ->
    0 <= tv_sec total ->
    tv_sec total + spec_seconds l
      + 2 * Z.of_nat (length (filter borrowed l)) < 2 ^ 63 ->
    tv_sec (fold_left accumulate l total) =
    tv_sec total + spec_seconds l + 2 * Z.of_nat (length (filter borrowed l)).
Proof.
  induction l as [| a l IH]; intros total Hall H0 Hfit.
  - simpl. lia.
  - inversion Hall as [| ? ? [Hsane Hs] Hall']; subst.
    destruct (elapsed_against_spec a Hsane Hs) as (He & H1 & _).
    destruct (spec_sums_nonneg l Hall') as [Hsec _].
    rewrite borrowed_count_cons in *.
    cbn [spec_seconds fold_right] in *. fold (spec_seconds l) in *.
    assert (Hstep : tv_sec (accumulate total a) =
                    tv_sec total + fst (elapsed_spec (tp a) (reply a))
                    + (if borrowed a then 2 else 0)).
    { rewrite accumulate_fields, He. cbn [tv_sec fst].
      rewrite to_long_small; destruct (borrowed a); lia. }
    cbn [fold_left]. rewrite IH; [| exact Hall' | |];
      rewrite Hstep; destruct (borrowed a); lia.
Qed.

Lemma fold_accumulate_nanoseconds (l : list attempt) :
  forall total,
    Forall (fun a => sane a = true /\ succeeded a = true) l ->
    0 <= tv_nsec total ->
    tv_nsec total + spec_nanoseconds l < 2 ^ 63 ->
    tv_nsec (fold_left accumulate l total) = tv_nsec total + spec_nanoseconds l.
Proof.
  induction l as [| a l IH]; intros total Hall H0 Hfit.
  - simpl. lia.
  - inversion Hall as [| ? ? [Hsane Hs] Hall']; subst.
    destruct (elapsed_against_spec a Hsane Hs) as (He & _ & H2).
    destruct (spec_sums_nonneg l Hall') as [_ Hn].
    cbn [spec_nanoseconds fold_right] in *. fold (spec_nanoseconds l) in *.
    assert (Hstep : tv_nsec (accumulate total a) =
                    tv_nsec total + snd (elapsed_spec (tp a) (reply a))).
    { rewrite accumulate_fields, He. cbn [tv_nsec snd]. rewrite to_long_small; lia. }
    cbn [fold_left]. rewrite IH; [| exact Hall' | |]; rewrite Hstep; lia.
Qed.

(** X11.  A whole run against the specification's subtraction, for valid
    clock readings.  The nanosecond field ends as the plain sum of the
    specification's nanosecond differences.  The seconds field, unless it
    overflows, ends as the sum of the specification's second differences
    plus two for every trial that took the borrow branch. *)
Theorem seconds_exceed_by_twice_the_borrows
        (t2 : Z) (mr : l4_msg_regs_t) (tr : list attempt) :
  BENCH_SIZE <= Z.of_nat (length (successes tr)) ->
  forallb sane tr = true ->
  exists consumed rest evs v,
    tr = consumed ++ rest /\
    thread1_loop t2 BENCH_SIZE 0 (thread1_init mr) tr = (evs, Done (v, rest)) /\
    tv_nsec (ts_total v) = spec_nanoseconds (successes consumed) /\
    (spec_seconds (successes consumed)
       + 2 * Z.of_nat (length (filter borrowed (successes consumed))) < 2 ^ 63 ->
     tv_sec (ts_total v) =
       spec_seconds (successes consumed)
       + 2 * Z.of_nat (length (filter borrowed (successes consumed)))).
Proof.
  intros H Hsane.
  destruct (thread1_loop_retries t2 BENCH_SIZE bench_size_unsigned
              tr 0 (thread1_init mr) ltac:(unfold BENCH_SIZE; lia) ltac:(lia))
    as (c & rest & evs & v & Htr & Hrun & Hc & _ & Ht & _).
  exists c, rest, evs, v. split; [exact Htr |]. split; [exact Hrun |].
  assert (Hall : Forall (fun a => sane a = true /\ succeeded a = true) (successes c)).
  { apply Forall_forall. intros a Ha. apply filter_In in Ha. destruct Ha as [Ha Hs].
    split; [| exact Hs].
    rewrite forallb_forall in Hsane. apply Hsane. rewrite Htr. apply in_or_app. auto. }
  rewrite Ht. cbn [thread1_init ts_total]. split.
  - rewrite fold_accumulate_nanoseconds; cbn [tv_nsec]; [lia | exact Hall | lia |].
    destruct (spec_sums_nonneg _ Hall) as [_ Hn].
    rewrite Z.sub_0_r in Hc. rewrite Hc in Hn. unfold BENCH_SIZE in Hn. lia.
  - intros Hfit.
    rewrite fold_accumulate_seconds; cbn [tv_sec]; [lia | exact Hall | lia | lia].
Qed.

Lemma seconds_exceed_by_twice_the_borrows_witness :
  let crossing := {| tp := {| tv_sec := 0; tv_nsec := 900 |};
                     tsc_start := 0; tsc_end := 90; ipc_error := 0;
                     reply := {| mr_0 := 1; mr_1 := 100 |} |} in
  let tr := crossing :: quick_trials (Z.to_nat (BENCH_SIZE - 1)) 2 in
  exists consumed rest evs v,
    tr = consumed ++ rest /\
    thread1_loop 7 BENCH_SIZE 0 (thread1_init cleared) tr = (evs, Done (v, rest)) /\
    tv_nsec (ts_total v) = spec_nanoseconds (successes consumed).
Proof.
  intros crossing tr.
  destruct (seconds_exceed_by_twice_the_borrows 7 cleared tr)
    as (c & rest & evs & v & Htr & Hrun & Hn & _).
  - apply Z.leb_le. vm_compute. reflexivity.
  - vm_compute. reflexivity.
  - exists c, rest, evs, v. auto.
Defined.
